(** * tesselite-pubsub: a shallow embedding of [tesselite/pubsub.py]

    The development models the two broker clients ([RedisPubsub],
    [GCPPubSub]), the client factory and the retry decorator [connexion]
    as state-passing programs over a [World] that holds the client
    objects, the brokers and the traces of every externally visible
    effect (log lines, publishes, acknowledgements, callback calls). *)

From Stdlib Require Import ZArith NArith Lia Ascii String.
From stdpp Require Import base option list gmap strings.

(* ===================================================================== *)
(** ** Python values used by the clients                                  *)
(* ===================================================================== *)

(** A [bytes] object: a sequence of integers in [0, 256). *)
Abbreviation bytes := (list N) (only parsing).

(** A [str] object: a sequence of Unicode code points. Python admits every
    code point up to [0x10FFFF] in a [str], lone surrogates included. *)
Abbreviation text := (list N) (only parsing).

(** What [publish] accepts: [msg.encode() if isinstance(msg, str) else msg]. *)
Inductive payload : Type :=
| PText (s : text)
| PBytes (b : bytes).

(* ===================================================================== *)
(** ** UTF-8, the codec behind [str.encode()] and [bytes.decode()]        *)
(* ===================================================================== *)

Definition is_surrogate (c : N) : bool := ((55296 <=? c) && (c <? 57344))%N.

(** [encode_cp c] is the UTF-8 encoding of one code point, [None] where
    [str.encode()] raises [UnicodeEncodeError] (a lone surrogate). *)
Definition encode_cp (c : N) : option bytes :=
  if (c <? 128)%N then Some [c]
  else if (c <? 2048)%N then Some [192 + c / 64; 128 + c mod 64]%N
  else if (c <? 65536)%N then
    if is_surrogate c then None
    else Some [224 + c / 4096; 128 + (c / 64) mod 64; 128 + c mod 64]%N
  else if (c <? 1114112)%N then
    Some [240 + c / 262144; 128 + (c / 4096) mod 64;
          128 + (c / 64) mod 64; 128 + c mod 64]%N
  else None.

Fixpoint encode_utf8 (s : text) : option bytes :=
  match s with
  | [] => Some []
  | c :: s' =>
      match encode_cp c, encode_utf8 s' with
      | Some b, Some bs => Some (b ++ bs)
      | _, _ => None
      end
  end.

(** A continuation byte is [10xxxxxx]. *)
Definition is_cont (b : N) : bool := ((128 <=? b) && (b <? 192))%N.

(** Strict decoding, as [bytes.decode()] does it: overlong forms,
    surrogates, code points above [0x10FFFF], stray continuation bytes and
    truncated sequences are all rejected ([None] stands for
    [UnicodeDecodeError]). *)
Fixpoint decode_utf8 (bs : bytes) : option text :=
  match bs with
  | [] => Some []
  | b0 :: t0 =>
      if (b0 <? 128)%N then cons b0 <$> decode_utf8 t0
      else if (b0 <? 192)%N then None
      else if (b0 <? 224)%N then
        match t0 with
        | b1 :: t1 =>
            let c := ((b0 - 192) * 64 + (b1 - 128))%N in
            if is_cont b1 && (128 <=? c)%N
            then cons c <$> decode_utf8 t1 else None
        | _ => None
        end
      else if (b0 <? 240)%N then
        match t0 with
        | b1 :: b2 :: t2 =>
            let c := ((b0 - 224) * 4096 + (b1 - 128) * 64 + (b2 - 128))%N in
            if is_cont b1 && is_cont b2 && (2048 <=? c)%N
               && negb (is_surrogate c)
            then cons c <$> decode_utf8 t2 else None
        | _ => None
        end
      else if (b0 <? 248)%N then
        match t0 with
        | b1 :: b2 :: b3 :: t3 =>
            let c := ((b0 - 240) * 262144 + (b1 - 128) * 4096
                      + (b2 - 128) * 64 + (b3 - 128))%N in
            if is_cont b1 && is_cont b2 && is_cont b3
               && (65536 <=? c)%N && (c <? 1114112)%N
            then cons c <$> decode_utf8 t3 else None
        | _ => None
        end
      else None
  end.

(** The bytes that travel for a payload. [GCPPubSub.publish] computes them
    itself; for [RedisPubsub.publish] the redis client library encodes a
    [str] the same way. *)
Definition wire_bytes (msg : payload) : option bytes :=
  match msg with
  | PText s => encode_utf8 s
  | PBytes b => Some b
  end.

(* ===================================================================== *)
(** ** Faults                                                             *)
(* ===================================================================== *)

(** The subclasses of [Exception] that the module names or can meet. None
    of the classes named in a [connexion] fault set is a subclass of
    another one, so membership in a set is equality of classes. *)
Inductive fault : Type :=
| gaierror                     (* socket.gaierror *)
| ConnectionError              (* redis.exceptions.ConnectionError *)
| ServiceUnavailable           (* google.api_core.exceptions.* *)
| AlreadyExists
| NotFound
| InvalidArgument
| RetryError
| TimeoutError
| MessageProcessingException   (* tesselite.exceptions *)
| UnicodeDecodeError
| UnicodeEncodeError
| AttributeError
| KeyError
| DataError                    (* redis.exceptions.DataError *)
| UserError (name : string).   (* any other Exception, e.g. from a callback *)

(** Everything a Python call can raise: a fault ([except Exception]
    catches exactly these), or one of the two [BaseException]s the module
    deals with. [exit(n)] raises [SystemExit(n)], which ends the process. *)
Inductive raised : Type :=
| Fault (f : fault)
| KeyboardInterrupt
| SystemExit (code : Z).

#[global] Instance fault_eq_dec : EqDecision fault.
Proof. solve_decision. Defined.
#[global] Instance raised_eq_dec : EqDecision raised.
Proof. solve_decision. Defined.

(* ===================================================================== *)
(** ** Logging                                                            *)
(* ===================================================================== *)

Inductive level : Type := DEBUG | INFO | WARNING | ERROR | FATAL.

Inductive log_entry : Type :=
| Log (lvl : level) (line : string)
| LogRaised (lvl : level) (e : raised).

(* ===================================================================== *)
(** ** Client objects                                                     *)
(* ===================================================================== *)

(** [RedisEnv] and [GCPEnv] are configuration holders of the package; only
    the attributes that [pubsub.py] reads are kept. *)
Record RedisEnv : Type := {
  HOST : string;
  PORT : Z;
  DB : Z;
  PASSWORD : string;
  TOPIC_NAME : string
}.

Record GCPEnv : Type := {
  GOOGLE_PROJECT : string;
  GOOGLE_APPLICATION_CREDENTIALS : string;
  GCP_TOPIC_NAME : string;
  SUBSCRIPTION_NAME : string
}.

(** The object [redis.Redis(host, port, db, password)] builds. *)
Record redis_handle : Type := {
  h_host : string;
  h_port : Z;
  h_db : Z;
  h_password : string;
  h_released : bool            (* [close()] was called on it *)
}.

(** The attributes of a [RedisPubsub] instance; [None] is Python's [None]. *)
Record RedisPubsub : Type := {
  r_pubsub : option string;    (* [_pubsub]: the PubSub object, by its channel *)
  r_env : RedisEnv;            (* [_env] *)
  r_client : option redis_handle;  (* [_client] *)
  r_topic : string             (* [_topic] *)
}.

(** The attributes of a [GCPPubSub] instance. *)
Record GCPPubSub : Type := {
  g_topic_path : option string;      (* [_topic_path] *)
  g_env : GCPEnv;                    (* [_env] *)
  g_topic : string;                  (* [_topic] *)
  g_publisher_client : option unit   (* [_publisher_client] *)
}.

(** [topic if topic else self._env.TOPIC_NAME]: the empty string is falsy. *)
Definition or_default (s dflt : string) : string :=
  if decide (s = EmptyString) then dflt else s.

(** [RedisPubsub.__init__] and [GCPPubSub.__init__] (their log lines are
    left out: no logger state is observed before [open]). *)
Definition RedisPubsub_init (topic : string) (e : RedisEnv) : RedisPubsub :=
  {| r_pubsub := None; r_env := e; r_client := None;
     r_topic := or_default topic (TOPIC_NAME e) |}.

Definition GCPPubSub_init (topic : string) (e : GCPEnv) : GCPPubSub :=
  {| g_topic_path := None; g_env := e;
     g_topic := or_default topic (GCP_TOPIC_NAME e);
     g_publisher_client := None |}.

(* ===================================================================== *)
(** ** The brokers and the rest of the environment                        *)
(* ===================================================================== *)

(** One event of [redis.client.PubSub.listen()]: the dict with the keys
    ['type'], ['pattern'], ['channel'] and ['data']. ['data'] is the
    payload of a message and an integer in a subscription confirmation. *)
Inductive redis_data : Type :=
| DataBytes (b : bytes)
| DataInt (n : Z).

Record event : Type := {
  ev_type : string;
  ev_pattern : option string;
  ev_channel : string;
  ev_data : redis_data
}.

(** What [listen()] does next: it yields an event, or it raises (a
    transport fault, or the operator's interruption while it blocks). An
    exhausted stream is a generator that returns. *)
Inductive stream_item : Type :=
| Event (ev : event)
| Signal (e : raised).

(** The second argument of [self._client.publish] as the client hands it
    to the library: a payload, or, for the dead letter, the received event
    (the dict that [listen()] yielded). *)
Inductive redis_value : Type :=
| RPayload (msg : payload)
| REvent (ev : event).

(** A message of the cloud backend's streaming pull. *)
Record gmessage : Type := {
  data : bytes;
  ack_id : nat
}.

(** One streaming-pull session: the messages the backend hands to the
    wrapper callback while [future.result()] blocks, and how the blocking
    call ends ([None]: it returns). *)
Record session : Type := {
  delivered : list gmessage;
  ending : option raised
}.

(** What the environment does just before the next request to a broker:
    nothing, make the request fail, or let another client create a topic
    or a subscription first. *)
Inductive env_step : Type :=
| Quiet
| Inject (e : raised)
| OtherCreatesTopic (path : string)
| OtherCreatesSubscription (name topic : string).

Record World : Type := mkWorld {
  (* the process *)
  os_environ : gmap string string;
  logs : list log_entry;
  backoffs : nat;                          (* backoff delays slept *)
  cb_calls : list text;                    (* arguments given to the callback *)
  (* the scripted environment *)
  env : list env_step;
  redis_stream : list stream_item;
  sessions : list session;
  (* the key-value store *)
  redis_self : RedisPubsub;
  redis_sent : list (string * redis_value);
  (* the cloud service *)
  gcp_self : GCPPubSub;
  topics : gset string;
  subscriptions : gmap string string;      (* subscription path -> topic path *)
  gcp_sent : list (string * bytes);
  acked : list gmessage;
  worker_raised : list (gmessage * raised); (* faults that left the wrapper callback *)
  futures_cancelled : nat;
  subscribers_closed : nat
}.

Definition set_logs (x : list log_entry) (w : World) : World :=
  mkWorld (os_environ w) x (backoffs w) (cb_calls w) (env w) (redis_stream w)
    (sessions w) (redis_self w) (redis_sent w) (gcp_self w) (topics w)
    (subscriptions w) (gcp_sent w) (acked w) (worker_raised w)
    (futures_cancelled w) (subscribers_closed w).

Definition set_backoffs (x : nat) (w : World) : World :=
  mkWorld (os_environ w) (logs w) x (cb_calls w) (env w) (redis_stream w)
    (sessions w) (redis_self w) (redis_sent w) (gcp_self w) (topics w)
    (subscriptions w) (gcp_sent w) (acked w) (worker_raised w)
    (futures_cancelled w) (subscribers_closed w).

Definition set_cb_calls (x : list text) (w : World) : World :=
  mkWorld (os_environ w) (logs w) (backoffs w) x (env w) (redis_stream w)
    (sessions w) (redis_self w) (redis_sent w) (gcp_self w) (topics w)
    (subscriptions w) (gcp_sent w) (acked w) (worker_raised w)
    (futures_cancelled w) (subscribers_closed w).

Definition set_env (x : list env_step) (w : World) : World :=
  mkWorld (os_environ w) (logs w) (backoffs w) (cb_calls w) x (redis_stream w)
    (sessions w) (redis_self w) (redis_sent w) (gcp_self w) (topics w)
    (subscriptions w) (gcp_sent w) (acked w) (worker_raised w)
    (futures_cancelled w) (subscribers_closed w).

Definition set_redis_stream (x : list stream_item) (w : World) : World :=
  mkWorld (os_environ w) (logs w) (backoffs w) (cb_calls w) (env w) x
    (sessions w) (redis_self w) (redis_sent w) (gcp_self w) (topics w)
    (subscriptions w) (gcp_sent w) (acked w) (worker_raised w)
    (futures_cancelled w) (subscribers_closed w).

Definition set_sessions (x : list session) (w : World) : World :=
  mkWorld (os_environ w) (logs w) (backoffs w) (cb_calls w) (env w)
    (redis_stream w) x (redis_self w) (redis_sent w) (gcp_self w) (topics w)
    (subscriptions w) (gcp_sent w) (acked w) (worker_raised w)
    (futures_cancelled w) (subscribers_closed w).

Definition set_redis_self (x : RedisPubsub) (w : World) : World :=
  mkWorld (os_environ w) (logs w) (backoffs w) (cb_calls w) (env w)
    (redis_stream w) (sessions w) x (redis_sent w) (gcp_self w) (topics w)
    (subscriptions w) (gcp_sent w) (acked w) (worker_raised w)
    (futures_cancelled w) (subscribers_closed w).

Definition set_redis_sent (x : list (string * redis_value)) (w : World) : World :=
  mkWorld (os_environ w) (logs w) (backoffs w) (cb_calls w) (env w)
    (redis_stream w) (sessions w) (redis_self w) x (gcp_self w) (topics w)
    (subscriptions w) (gcp_sent w) (acked w) (worker_raised w)
    (futures_cancelled w) (subscribers_closed w).

Definition set_gcp_self (x : GCPPubSub) (w : World) : World :=
  mkWorld (os_environ w) (logs w) (backoffs w) (cb_calls w) (env w)
    (redis_stream w) (sessions w) (redis_self w) (redis_sent w) x (topics w)
    (subscriptions w) (gcp_sent w) (acked w) (worker_raised w)
    (futures_cancelled w) (subscribers_closed w).

Definition set_topics (x : gset string) (w : World) : World :=
  mkWorld (os_environ w) (logs w) (backoffs w) (cb_calls w) (env w)
    (redis_stream w) (sessions w) (redis_self w) (redis_sent w) (gcp_self w) x
    (subscriptions w) (gcp_sent w) (acked w) (worker_raised w)
    (futures_cancelled w) (subscribers_closed w).

Definition set_subscriptions (x : gmap string string) (w : World) : World :=
  mkWorld (os_environ w) (logs w) (backoffs w) (cb_calls w) (env w)
    (redis_stream w) (sessions w) (redis_self w) (redis_sent w) (gcp_self w)
    (topics w) x (gcp_sent w) (acked w) (worker_raised w)
    (futures_cancelled w) (subscribers_closed w).

Definition set_gcp_sent (x : list (string * bytes)) (w : World) : World :=
  mkWorld (os_environ w) (logs w) (backoffs w) (cb_calls w) (env w)
    (redis_stream w) (sessions w) (redis_self w) (redis_sent w) (gcp_self w)
    (topics w) (subscriptions w) x (acked w) (worker_raised w)
    (futures_cancelled w) (subscribers_closed w).

Definition set_acked (x : list gmessage) (w : World) : World :=
  mkWorld (os_environ w) (logs w) (backoffs w) (cb_calls w) (env w)
    (redis_stream w) (sessions w) (redis_self w) (redis_sent w) (gcp_self w)
    (topics w) (subscriptions w) (gcp_sent w) x (worker_raised w)
    (futures_cancelled w) (subscribers_closed w).

Definition set_worker_raised (x : list (gmessage * raised)) (w : World) : World :=
  mkWorld (os_environ w) (logs w) (backoffs w) (cb_calls w) (env w)
    (redis_stream w) (sessions w) (redis_self w) (redis_sent w) (gcp_self w)
    (topics w) (subscriptions w) (gcp_sent w) (acked w) x
    (futures_cancelled w) (subscribers_closed w).

Definition set_futures_cancelled (x : nat) (w : World) : World :=
  mkWorld (os_environ w) (logs w) (backoffs w) (cb_calls w) (env w)
    (redis_stream w) (sessions w) (redis_self w) (redis_sent w) (gcp_self w)
    (topics w) (subscriptions w) (gcp_sent w) (acked w) (worker_raised w)
    x (subscribers_closed w).

Definition set_subscribers_closed (x : nat) (w : World) : World :=
  mkWorld (os_environ w) (logs w) (backoffs w) (cb_calls w) (env w)
    (redis_stream w) (sessions w) (redis_self w) (redis_sent w) (gcp_self w)
    (topics w) (subscriptions w) (gcp_sent w) (acked w) (worker_raised w)
    (futures_cancelled w) x.

(* ===================================================================== *)
(** ** Programs: state passing with Python's exceptions                   *)
(* ===================================================================== *)

(** A call returns, raises, or is still retrying when the bound on retry
    attempts is reached ([OutOfFuel]; see [connexion]). *)
Inductive outcome (A : Type) : Type :=
| Return (a : A)
| Raise (e : raised)
| OutOfFuel.
Arguments Return {A} a.
Arguments Raise {A} e.
Arguments OutOfFuel {A}.

Definition M (A : Type) : Type := World → outcome A * World.

Definition ret {A} (a : A) : M A := λ w, (Return a, w).

Definition bind {A B} (m : M A) (k : A → M B) : M B := λ w,
  match m w with
  | (Return a, w1) => k a w1
  | (Raise e, w1) => (Raise e, w1)
  | (OutOfFuel, w1) => (OutOfFuel, w1)
  end.

#[global] Instance M_ret : MRet M := @ret.
#[global] Instance M_bind : MBind M := λ A B k m, bind m k.

Definition raise {A} (e : raised) : M A := λ w, (Raise e, w).

(** [try: m  except ...:]. The handler table [h] answers [None] for a
    raised value that no [except] clause matches. *)
Definition try_except {A} (m : M A) (h : raised → option (M A)) : M A := λ w,
  match m w with
  | (Raise e, w1) =>
      match h e with
      | Some k => k w1
      | None => (Raise e, w1)
      end
  | r => r
  end.

Definition get {A} (proj : World → A) : M A := λ w, (Return (proj w), w).
Definition modify (f : World → World) : M unit := λ w, (Return tt, f w).

Definition log_add (entry : log_entry) (w : World) : World :=
  set_logs (logs w ++ [entry]) w.

(** [logger.<lvl>(line)] and [logger.<lvl>(err)]. *)
Definition logger (lvl : level) (line : string) : M unit :=
  modify (log_add (Log lvl line)).
Definition logger_raised (lvl : level) (e : raised) : M unit :=
  modify (log_add (LogRaised lvl e)).

(** Another client registers a topic or a subscription. *)
Definition other_creates_topic (path : string) (w : World) : World :=
  set_topics ({[path]} ∪ topics w) w.

Definition other_creates_subscription (name topic : string) (w : World) : World :=
  match subscriptions w !! name with
  | Some _ => w
  | None =>
      if decide (topic ∈ topics w)
      then set_subscriptions (<[name := topic]> (subscriptions w)) w
      else w
  end.

(** Every request to a broker first lets the environment take its next
    step; an exhausted script is a quiet environment. *)
Definition request : M unit := λ w,
  match env w with
  | [] => (Return tt, w)
  | Quiet :: s => (Return tt, set_env s w)
  | Inject e :: s => (Raise e, set_env s w)
  | OtherCreatesTopic p :: s => (Return tt, other_creates_topic p (set_env s w))
  | OtherCreatesSubscription n t :: s =>
      (Return tt, other_creates_subscription n t (set_env s w))
  end.

(** The environment lets the next request through. *)
Definition request_accepted (w : World) : Prop :=
  match env w with
  | Inject _ :: _ => False
  | _ => True
  end.

(** The user's callback: what it does with an argument, given the
    arguments of its earlier calls ([None]: it returns). *)
Definition Callback : Type := list text → text → option raised.

Definition call (callback : Callback) (arg : text) : M unit := λ w,
  let w1 := set_cb_calls (cb_calls w ++ [arg]) w in
  match callback (cb_calls w) arg with
  | None => (Return tt, w1)
  | Some e => (Raise e, w1)
  end.

(* ===================================================================== *)
(** ** The retry policy                                                   *)
(* ===================================================================== *)

Definition backoff (w : World) : World := set_backoffs (S (backoffs w)) w.

(** Modelled from the spec: the decorator [connexion] of
    [tesselite.exceptions], which [pubsub.py] imports and whose source is
    not available. Section 4.1 of the specification: on success the
    result is returned unchanged; a fault of the noisy set is logged at low
    severity and suppressed (the call is a no-op success, Python's
    [None]); a fault of the expected set is logged and the operation is
    retried after a backoff delay; any other fault is logged at error
    severity and raised again. The source retries without a bound:
    [fuel] bounds the attempts, and [OutOfFuel] says the bound was hit.
    The severity of the line for an expected fault is not fixed by the
    specification. *)
Fixpoint connexion {A} (fuel : nat) (expected_errors noisy_errors : list fault)
    (op : M A) : M (option A) :=
  match fuel with
  | O => λ w, (OutOfFuel, w)
  | S fuel' => λ w,
      match op w with
      | (Return a, w1) => (Return (Some a), w1)
      | (Raise (Fault f), w1) =>
          if decide (f ∈ noisy_errors)
          then (Return None, log_add (LogRaised DEBUG (Fault f)) w1)
          else if decide (f ∈ expected_errors)
          then connexion fuel' expected_errors noisy_errors op
                 (backoff (log_add (LogRaised WARNING (Fault f)) w1))
          else (Raise (Fault f), log_add (LogRaised ERROR (Fault f)) w1)
      | (Raise e, w1) => (Raise e, w1)
      | (OutOfFuel, w1) => (OutOfFuel, w1)
      end
  end.

(* ===================================================================== *)
(** ** [class RedisPubsub(Pubsub)]                                        *)
(* ===================================================================== *)

Definition set_r_client (c : option redis_handle) (self : RedisPubsub) : RedisPubsub :=
  {| r_pubsub := r_pubsub self; r_env := r_env self; r_client := c;
     r_topic := r_topic self |}.

Definition set_r_pubsub (p : option string) (self : RedisPubsub) : RedisPubsub :=
  {| r_pubsub := p; r_env := r_env self; r_client := r_client self;
     r_topic := r_topic self |}.

(** [redis.Redis(host=..., port=..., db=..., password=...)]: building the
    handle sends nothing. *)
Definition redis_Redis (e : RedisEnv) : redis_handle :=
  {| h_host := HOST e; h_port := PORT e; h_db := DB e;
     h_password := PASSWORD e; h_released := false |}.

Definition release (h : redis_handle) : redis_handle :=
  {| h_host := h_host h; h_port := h_port h; h_db := h_db h;
     h_password := h_password h; h_released := true |}.

(** The networking errors every method of the class declares as expected. *)
Definition redis_expected : list fault := [gaierror; ConnectionError].

Definition RedisPubsub_open_body : M unit :=
  logger DEBUG "connecting ..";;
  modify (λ w, set_redis_self
                 (set_r_client (Some (redis_Redis (r_env (redis_self w))))
                    (redis_self w)) w);;
  logger DEBUG "pinging ..";;
  request;;                                         (* self._client.ping() *)
  logger INFO "ready.".

Definition RedisPubsub_open (fuel : nat) : M (option unit) :=
  connexion fuel redis_expected [] RedisPubsub_open_body.

(** [close] is not decorated. Before [open], [self._client] is [None] and
    the attribute access [None.close] raises [AttributeError]. *)
Definition RedisPubsub_close : M unit :=
  self ← get redis_self;
  match r_client self with
  | None => raise (Fault AttributeError)
  | Some h =>
      modify (set_redis_self (set_r_client (Some (release h)) self));;
      logger DEBUG "terminated."
  end.

(** [s.encode()]. *)
Definition str_encode (s : text) : M bytes :=
  match encode_utf8 s with
  | Some b => ret b
  | None => raise (Fault UnicodeEncodeError)
  end.

(** How the redis library packs the value of a command: [bytes] go as they
    are, a [str] is encoded as UTF-8, and a [dict] is refused with
    [DataError] (from its version 3 on the library takes bytes, strings
    and numbers only). *)
Definition redis_encode (value : redis_value) : M bytes :=
  match value with
  | RPayload (PBytes b) => ret b
  | RPayload (PText s) => str_encode s
  | REvent _ => raise (Fault DataError)
  end.

(** [self._client.publish(channel, value)]: the library takes a
    connection to the broker, packs the command, and sends it. A value
    that it cannot pack is never sent. *)
Definition redis_client_publish (channel : string) (value : redis_value) : M unit :=
  self ← get redis_self;
  match r_client self with
  | None => raise (Fault AttributeError)
  | Some _ =>
      request;;
      redis_encode value;;
      modify (λ w, set_redis_sent (redis_sent w ++ [(channel, value)]) w)
  end.

Definition RedisPubsub_publish_body (msg : payload) : M unit :=
  self ← get redis_self;
  redis_client_publish (r_topic self) (RPayload msg).

Definition RedisPubsub_publish (fuel : nat) (msg : payload) : M (option unit) :=
  connexion fuel redis_expected [] (RedisPubsub_publish_body msg).

(** [b.decode()]. *)
Definition bytes_decode (b : bytes) : M text :=
  match decode_utf8 b with
  | Some s => ret s
  | None => raise (Fault UnicodeDecodeError)
  end.

(** [msg['data'].decode()]: an [int] has no [decode]. *)
Definition redis_data_decode (d : redis_data) : M text :=
  match d with
  | DataBytes b => bytes_decode b
  | DataInt _ => raise (Fault AttributeError)
  end.

(** The inner function [exec_callback] of [consume] (its [msg] is the loop
    variable, the very event it is called with). *)
Definition RedisPubsub_exec_callback_body (callback : Callback) (message : event)
    : M unit :=
  if decide (ev_type message = "message") then
    data ← redis_data_decode (ev_data message);
    call callback data
  else ret tt.

Definition RedisPubsub_exec_callback (fuel : nat) (callback : Callback)
    (message : event) : M (option unit) :=
  connexion fuel redis_expected [] (RedisPubsub_exec_callback_body callback message).

(** [if deadLetter:] -- [None] and the empty string are falsy. *)
Definition truthy (s : option string) : option string :=
  match s with
  | Some x => if decide (x = EmptyString) then None else Some x
  | None => None
  end.

(** One turn of the event loop: the inner [try] with its handler. *)
Definition RedisPubsub_on_event (fuel : nat) (callback : Callback)
    (deadLetter : option string) (msg : event) : M unit :=
  try_except
    (RedisPubsub_exec_callback fuel callback msg;; ret tt)
    (λ err,
       match err with
       | Fault _ =>
           Some (logger_raised ERROR err;;
                 match truthy deadLetter with
                 | Some topic => redis_client_publish topic (REvent msg)
                 | None => ret tt
                 end;;
                 raise err)
       | _ => None
       end).

(** [for msg in self._pubsub.listen(): body(msg)] over the items the
    stream still holds. The third component is what the stream holds when
    the loop is left. *)
Fixpoint listen_loop (body : event → M unit) (items : list stream_item)
    (w : World) : outcome unit * World * list stream_item :=
  match items with
  | [] => (Return tt, w, [])
  | Signal e :: rest => (Raise e, w, rest)
  | Event ev :: rest =>
      match body ev w with
      | (Return _, w1) => listen_loop body rest w1
      | (Raise e, w1) => (Raise e, w1, rest)
      | (OutOfFuel, w1) => (OutOfFuel, w1, rest)
      end
  end.

Definition for_listen (body : event → M unit) : M unit := λ w,
  let '(r, w1, rest) := listen_loop body (redis_stream w) w in
  (r, set_redis_stream rest w1).

(** The first statements of [consume]: the log line, then
    [self._pubsub = self._client.pubsub(...)] and
    [self._pubsub.subscribe(self._topic)]. *)
Definition RedisPubsub_subscribe : M unit :=
  logger DEBUG "consuming ..";;
  self ← get redis_self;
  match r_client self with
  | None => raise (Fault AttributeError)
  | Some _ =>
      modify (set_redis_self (set_r_pubsub (Some (r_topic self)) self));;
      request
  end.

(** The event loop of [consume]: the outer [try] with its handlers. *)
Definition RedisPubsub_event_loop (fuel : nat) (callback : Callback)
    (deadLetter : option string) : M unit :=
  try_except
    (for_listen (RedisPubsub_on_event fuel callback deadLetter))
    (λ err,
       match err with
       | KeyboardInterrupt => Some (logger INFO "graceful exit")
       | Fault _ => Some (raise err)
       | _ => None
       end).

Definition RedisPubsub_consume_body (fuel : nat) (callback : Callback)
    (deadLetter : option string) : M unit :=
  RedisPubsub_subscribe;;
  RedisPubsub_event_loop fuel callback deadLetter.

Definition RedisPubsub_consume (fuel : nat) (callback : Callback)
    (deadLetter : option string) : M (option unit) :=
  connexion fuel redis_expected []
    (RedisPubsub_consume_body fuel callback deadLetter).

(* ===================================================================== *)
(** ** [class GCPPubSub(Pubsub)]                                          *)
(* ===================================================================== *)

Definition set_g_opened (path : string) (self : GCPPubSub) : GCPPubSub :=
  {| g_topic_path := Some path; g_env := g_env self; g_topic := g_topic self;
     g_publisher_client := Some tt |}.

(** [PublisherClient.topic_path(project, topic)]. *)
Definition topic_path (project topic : string) : string :=
  "projects/" +:+ project +:+ "/topics/" +:+ topic.

(** How an f-string prints an attribute that may be [None]. *)
Definition show (o : option string) : string := default "None" o.

(** The cloud service, as far as the client relies on it: a registry of
    topics and subscriptions by path; [get_*] raises [NotFound] for a
    path it does not hold and [create_*] raises [AlreadyExists] for one it
    holds. A call through a [_publisher_client] that is still [None]
    raises [AttributeError]. *)
Definition publisher_request : M string :=
  self ← get gcp_self;
  match g_publisher_client self with
  | None => raise (Fault AttributeError)
  | Some _ =>
      match g_topic_path self with
      | None => raise (Fault InvalidArgument)
      | Some path => request;; ret path
      end
  end.

Definition get_topic : M unit :=
  path ← publisher_request;
  ts ← get topics;
  if decide (path ∈ ts) then ret tt else raise (Fault NotFound).

Definition create_topic : M unit :=
  path ← publisher_request;
  ts ← get topics;
  if decide (path ∈ ts) then raise (Fault AlreadyExists)
  else modify (set_topics ({[path]} ∪ ts)).

Definition get_subscription (subscription : string) : M string :=
  request;;
  subs ← get subscriptions;
  match subs !! subscription with
  | Some topic => ret topic
  | None => raise (Fault NotFound)
  end.

Definition create_subscription (name : string) (topic : option string) : M unit :=
  request;;
  subs ← get subscriptions;
  ts ← get topics;
  match subs !! name, topic with
  | Some _, _ => raise (Fault AlreadyExists)
  | None, None => raise (Fault InvalidArgument)
  | None, Some t =>
      if decide (t ∈ ts) then modify (set_subscriptions (<[name := t]> subs))
      else raise (Fault NotFound)
  end.

Definition gcp_expected : list fault := [ServiceUnavailable].
Definition gcp_noisy : list fault := [AlreadyExists].

Definition GCPPubSub_check_topic_body : M unit :=
  try_except
    (self ← get gcp_self;
     logger DEBUG ("checking  .. topic=" +:+ show (g_topic_path self));;
     get_topic)
    (λ err,
       match err with
       | Fault NotFound =>
           Some (self ← get gcp_self;
                 logger INFO ("creating new topic .. " +:+ show (g_topic_path self));;
                 create_topic)
       | _ => Some (raise err)
       end).

Definition GCPPubSub_check_topic (fuel : nat) : M (option unit) :=
  connexion fuel gcp_expected gcp_noisy GCPPubSub_check_topic_body.

Definition GCPPubSub_check_subscription_body (fuel : nat) (subscription : string)
    : M unit :=
  GCPPubSub_check_topic fuel;;
  try_except
    (logger DEBUG ("checking subscription .. " +:+ subscription);;
     resource ← get_subscription subscription;
     logger DEBUG ("name=" +:+ subscription +:+ ", topic=" +:+ resource);;
     ret tt)
    (λ err,
       match err with
       | Fault NotFound | Fault InvalidArgument =>
           Some (logger INFO ("registering new subscription .. " +:+ subscription);;
                 self ← get gcp_self;
                 create_subscription subscription (g_topic_path self))
       | Fault _ => Some (logger_raised ERROR err;; raise err)
       | _ => None
       end).

Definition GCPPubSub_check_subscription (fuel : nat) (subscription : string)
    : M (option unit) :=
  connexion fuel gcp_expected gcp_noisy
    (GCPPubSub_check_subscription_body fuel subscription).

(** [open] is not decorated; [check_topic] is. *)
Definition GCPPubSub_open (fuel : nat) : M unit :=
  modify (λ w,
    let self := gcp_self w in
    set_gcp_self
      (set_g_opened (topic_path (GOOGLE_PROJECT (g_env self)) (g_topic self)) self)
      w);;
  GCPPubSub_check_topic fuel;;
  logger INFO "ready.".

Definition GCPPubSub_close : M unit := logger DEBUG "terminated.".

(** [publish] returns [call.result()], the identifier the service gave to
    the message: here its rank among the messages the service accepted. *)
Definition GCPPubSub_publish_body (msg : payload) : M nat :=
  self ← get gcp_self;
  match g_publisher_client self with
  | None => raise (Fault AttributeError)
  | Some _ =>
      b ← match msg with
          | PText s => str_encode s
          | PBytes b => ret b
          end;
      path ← publisher_request;
      ts ← get topics;
      if decide (path ∈ ts) then
        sent ← get gcp_sent;
        modify (set_gcp_sent (sent ++ [(path, b)]));;
        ret (length sent)
      else raise (Fault NotFound)
  end.

Definition GCPPubSub_publish (fuel : nat) (msg : payload) : M (option nat) :=
  connexion fuel gcp_expected gcp_noisy (GCPPubSub_publish_body msg).

(** [message.ack()]. *)
Definition ack (message : gmessage) : M unit :=
  modify (λ w, set_acked (acked w ++ [message]) w).

(** The inner function [exec_callback] of [consume]. *)
Definition GCPPubSub_exec_callback_body (callback : Callback) (message : gmessage)
    : M unit :=
  try_except
    (d ← bytes_decode (data message);
     call callback d;;
     ack message)
    (λ err,
       match err with
       | Fault _ =>
           Some (logger_raised ERROR err;;
                 raise (Fault MessageProcessingException))
       | _ => None
       end).

Definition GCPPubSub_exec_callback (fuel : nat) (callback : Callback)
    (message : gmessage) : M (option unit) :=
  connexion fuel [ServiceUnavailable; MessageProcessingException; NotFound] []
    (GCPPubSub_exec_callback_body callback message).

(** A worker of the subscriber's pool runs the wrapper callback on one
    message. What leaves the wrapper stays in the worker: the thread
    blocked in [future.result()] does not see it. A worker that is still
    retrying when the bound is hit is left there. *)
Definition deliver (fuel : nat) (callback : Callback) (message : gmessage) : M unit :=
  λ w,
    match GCPPubSub_exec_callback fuel callback message w with
    | (Raise e, w1) =>
        (Return tt, set_worker_raised (worker_raised w1 ++ [(message, e)]) w1)
    | (_, w1) => (Return tt, w1)
    end.

(** The workers handle the messages of a session concurrently, and the
    service promises no order. [deliveries] takes the runs of the workers
    one after the other, in the order the session lists the messages:
    one of the possible schedules. The properties of a session are
    stated for every such list and claim no order among the effects of
    different messages. *)
Fixpoint deliveries (fuel : nat) (callback : Callback) (ms : list gmessage) : M unit :=
  match ms with
  | [] => ret tt
  | m :: ms' => deliver fuel callback m;; deliveries fuel callback ms'
  end.

(** [subscriber.subscribe(...)] opens the next streaming session. *)
Definition subscribe : M session := λ w,
  match sessions w with
  | [] => (Return {| delivered := []; ending := None |}, w)
  | s :: ss => (Return s, set_sessions ss w)
  end.

(** [future.result()]: the messages of the session are handled while the
    call blocks, then it returns or raises. *)
Definition future_result (fuel : nat) (callback : Callback) (future : session) : M unit :=
  deliveries fuel callback (delivered future);;
  match ending future with
  | None => ret tt
  | Some e => raise e
  end.

Definition future_cancel : M unit :=
  modify (λ w, set_futures_cancelled (S (futures_cancelled w)) w).

(** [with google_subscriber_client() as subscriber:] closes the subscriber
    however the block is left. *)
Definition with_subscriber {A} (block : M A) : M A := λ w,
  match block w with
  | (OutOfFuel, w1) => (OutOfFuel, w1)
  | (r, w1) => (r, set_subscribers_closed (S (subscribers_closed w1)) w1)
  end.

Definition GCPPubSub_consume_body (fuel : nat) (callback : Callback)
    (subscription deadLetter : option string) : M unit :=
  logger DEBUG "consuming ..";;
  with_subscriber
    (self ← get gcp_self;
     let subscription_name :=
       match truthy subscription with
       | Some s => s
       | None => SUBSCRIPTION_NAME (g_env self)
       end in
     environ ← get os_environ;
     match environ !! "GOOGLE_PROJECT" with
     | None => raise (Fault KeyError)
     | Some project =>
         let subscription_path :=
           "projects/" +:+ project +:+ "/subscriptions/" +:+ subscription_name in
         GCPPubSub_check_subscription fuel subscription_path;;
         future ← subscribe;
         try_except
           (future_result fuel callback future)
           (λ err,
              match err with
              | KeyboardInterrupt => Some future_cancel
              | Fault _ => Some (raise err)
              | _ => None
              end)
     end).

Definition GCPPubSub_consume (fuel : nat) (callback : Callback)
    (subscription deadLetter : option string) : M (option unit) :=
  connexion fuel [ServiceUnavailable; RetryError]
    [AlreadyExists; NotFound; TimeoutError]
    (GCPPubSub_consume_body fuel callback subscription deadLetter).

(* ===================================================================== *)
(** ** [pubsubFactory]                                                    *)
(* ===================================================================== *)

(** A [string] stands for a Python [str] by its UTF-8 bytes: a character
    of the ASCII range is one byte below 128, any other code point is a run
    of bytes from 128 on. *)
Definition is_ascii (s : string) : Prop :=
  Forall (λ c, (nat_of_ascii c < 128)%nat) (list_ascii_of_string s).

#[global] Instance is_ascii_dec s : Decision (is_ascii s).
Proof. unfold is_ascii. apply _. Defined.

(** The letters [a-z] to [A-Z], byte by byte. *)
Definition upper_ascii (c : ascii) : ascii :=
  let n := nat_of_ascii c in
  if (97 <=? n)%nat && (n <=? 122)%nat then ascii_of_nat (n - 32) else c.

Fixpoint ascii_upper (s : string) : string :=
  match s with
  | EmptyString => EmptyString
  | String c s' => String (upper_ascii c) (ascii_upper s')
  end.

(** [str.upper()] goes by the case mappings of the Unicode database that
    the interpreter carries: a table that is no part of the program. The
    factory takes the function as its parameter [upper]. All that is
    relied on is what it does to a [str] of ASCII characters: it maps
    [a-z] to [A-Z] and leaves the rest. Beyond ASCII nothing is assumed
    (Python maps U+0131 to ["I"] and U+017F to ["S"], for instance). *)
Definition upper_on_ascii (upper : string → string) : Prop :=
  ∀ s, is_ascii s → upper s = ascii_upper s.

(** The factory returns a class, not an instance. *)
Inductive client_class : Type := class_RedisPubsub | class_GCPPubSub.

(** The identifier the factory compares [broker.upper()] with, by class. *)
Definition broker_name (c : client_class) : string :=
  match c with
  | class_RedisPubsub => "REDIS"
  | class_GCPPubSub => "GCP-PUBSUB"
  end.

(** The module-level [BROKER = os.environ.get("BROKER", "GCP_PUBSUB")]. *)
Definition BROKER (environ : gmap string string) : string :=
  default "GCP_PUBSUB" (environ !! "BROKER").

Definition pubsubFactory (upper : string → string) (broker : string)
    : M client_class :=
  if decide (upper broker = "REDIS") then ret class_RedisPubsub
  else if decide (upper broker = "GCP-PUBSUB") then ret class_GCPPubSub
  else
    environ ← get os_environ;
    logger FATAL ("Broker type <" +:+ BROKER environ +:+ "> not available yet.");;
    raise (SystemExit 1).

(** Letter casing, for stating what the factory is to match: two
    identifiers are the same up to case when they agree once their
    letters [A-Z] are lowered. *)
Definition lower_ascii (c : ascii) : ascii :=
  let n := nat_of_ascii c in
  if (65 <=? n)%nat && (n <=? 90)%nat then ascii_of_nat (n + 32) else c.

Fixpoint lower (s : string) : string :=
  match s with
  | EmptyString => EmptyString
  | String c s' => String (lower_ascii c) (lower s')
  end.

Definition same_up_to_case (a b : string) : Prop := lower a = lower b.

#[global] Instance same_up_to_case_dec a b : Decision (same_up_to_case a b).
Proof. unfold same_up_to_case. apply _. Defined.

(** An [upper] for the examples: [str.upper()] on ASCII and on the code
    points U+0131 (dotless i, the bytes 196 177) and U+017F (long s, the
    bytes 197 191); what else there is stays as it is. *)
Fixpoint upper_excerpt (s : string) : string :=
  match s with
  | EmptyString => EmptyString
  | String c s' =>
      match s' with
      | String c' s'' =>
          if decide (c = ascii_of_nat 196 ∧ c' = ascii_of_nat 177)
          then String (ascii_of_nat 73) (upper_excerpt s'')
          else if decide (c = ascii_of_nat 197 ∧ c' = ascii_of_nat 191)
          then String (ascii_of_nat 83) (upper_excerpt s'')
          else String (upper_ascii c) (upper_excerpt s')
      | EmptyString => String (upper_ascii c) EmptyString
      end
  end.

(** ["redis"] written with a dotless i, U+0131. *)
Definition redis_dotless : string :=
  "red" +:+ String (ascii_of_nat 196) (String (ascii_of_nat 177) "s").

(* ===================================================================== *)
(** ** Sample configurations                                              *)
(* ===================================================================== *)

Definition redis_env0 : RedisEnv :=
  {| HOST := "localhost"; PORT := 6379; DB := 0; PASSWORD := EmptyString;
     TOPIC_NAME := "tesselite-pubsub" |}.

Definition gcp_env0 : GCPEnv :=
  {| GOOGLE_PROJECT := "demo"; GOOGLE_APPLICATION_CREDENTIALS := EmptyString;
     GCP_TOPIC_NAME := "tesselite-pubsub"; SUBSCRIPTION_NAME := "tesselite" |}.

(** A fresh process: both clients constructed on topic ["t"], nothing
    opened, empty brokers, a quiet environment. *)
Definition world0 : World :=
  mkWorld {["GOOGLE_PROJECT" := "demo"]} [] 0 [] [] [] []
    (RedisPubsub_init "t" redis_env0) []
    (GCPPubSub_init "t" gcp_env0) ∅ ∅ [] [] [] 0 0.

(** The same process after [GCPPubSub.open()] and [RedisPubsub.open()]. *)
Definition world_open : World :=
  snd (RedisPubsub_open 1 (snd (GCPPubSub_open 1 world0))).

(** Events and callbacks used in the examples. ["hello"] is
    [104; 101; 108; 108; 111] both as text and, being ASCII, as bytes. *)
Definition hello : list N := [104; 101; 108; 108; 111]%N.

(** What [listen()] yields first: the confirmation of the subscription. *)
Definition subscribed_event : event :=
  {| ev_type := "subscribe"; ev_pattern := None; ev_channel := "t";
     ev_data := DataInt 1 |}.

Definition hello_event : event :=
  {| ev_type := "message"; ev_pattern := None; ev_channel := "t";
     ev_data := DataBytes hello |}.

(** A callback that always returns, one that always raises [e], and one
    that raises [e] on its first call only. *)
Definition accepting : Callback := λ _ _, None.
Definition failing (e : raised) : Callback := λ _ _, Some e.
Definition failing_once (e : raised) : Callback := λ history _,
  match history with
  | [] => Some e
  | _ => None
  end.

(* ===================================================================== *)
(** ** Vocabulary for the properties                                      *)
(* ===================================================================== *)

(** [frame R m]: every run of [m] relates the world it starts in to the
    world it ends in by [R]. *)
Definition frame {A} (R : relation World) (m : M A) : Prop :=
  ∀ w r w1, m w = (r, w1) → R w w1.

(** [keeps proj]: the component [proj] of the world is unchanged. *)
Definition keeps {B} (proj : World → B) : relation World :=
  λ w w1, proj w1 = proj w.

(** An environment step that does not fail the request it precedes; a
    world whose environment never fails a request. *)
Definition benign (s : env_step) : Prop :=
  match s with
  | Inject _ => False
  | _ => True
  end.

#[global] Instance benign_dec s : Decision (benign s).
Proof. destruct s; simpl; apply _. Defined.

Definition calm (w : World) : Prop := Forall benign (env w).

(** The cloud client went through [open]: it holds a publisher and the
    path of its topic. *)
Definition opened (path : string) (w : World) : Prop :=
  g_publisher_client (gcp_self w) = Some tt
  ∧ g_topic_path (gcp_self w) = Some path.

(** From [w] to [w1] the cloud client object is the same, the registry of
    the service only gained entries, and the environment did not turn
    hostile. *)
Definition grows : relation World := λ w w1,
  gcp_self w1 = gcp_self w
  ∧ os_environ w1 = os_environ w
  ∧ topics w ⊆ topics w1
  ∧ subscriptions w ⊆ subscriptions w1
  ∧ (calm w → calm w1)
  ∧ (env w = [] → env w1 = []).

(* ===================================================================== *)
(** ** [class Pubsub]: the scoped use, and the factory's default          *)
(* ===================================================================== *)

(** [with client: block]. [__enter__] calls [self.open()] and hands the
    client to the block; [__exit__] calls [self.close()] and returns
    [None], so a fault of the block is raised again once [close] has
    returned. When [open] raises the block is not entered and [__exit__]
    is not called; a fault of [close] replaces the one of the block. *)
Definition with_Pubsub {A B} (open : M B) (close : M unit) (block : M A) : M A :=
  λ w,
    match open w with
    | (Return _, w1) =>
        match block w1 with
        | (Return a, w2) =>
            match close w2 with
            | (Return _, w3) => (Return a, w3)
            | (Raise e, w3) => (Raise e, w3)
            | (OutOfFuel, w3) => (OutOfFuel, w3)
            end
        | (Raise e, w2) =>
            match close w2 with
            | (Return _, w3) => (Raise e, w3)
            | (Raise e', w3) => (Raise e', w3)
            | (OutOfFuel, w3) => (OutOfFuel, w3)
            end
        | (OutOfFuel, w2) => (OutOfFuel, w2)
        end
    | (Raise e, w1) => (Raise e, w1)
    | (OutOfFuel, w1) => (OutOfFuel, w1)
    end.

Definition with_RedisPubsub {A} (fuel : nat) (block : M A) : M A :=
  with_Pubsub (RedisPubsub_open fuel) RedisPubsub_close block.

Definition with_GCPPubSub {A} (fuel : nat) (block : M A) : M A :=
  with_Pubsub (GCPPubSub_open fuel) GCPPubSub_close block.

(** [pubsubFactory()] with its default argument [broker = BROKER] (the
    environment is read as the module found it at import). *)
Definition pubsubFactory_default (upper : string → string) : M client_class :=
  environ ← get os_environ;
  pubsubFactory upper (BROKER environ).

(** What the event loop of [RedisPubsub.consume] is to hand to the
    callback for a run of events: the decoded payload of every event of
    type ["message"], in the order of arrival. *)
Definition event_payload (ev : event) : option text :=
  if decide (ev_type ev = "message") then
    match ev_data ev with
    | DataBytes b => decode_utf8 b
    | DataInt _ => None
    end
  else None.

Definition payloads (evs : list event) : list text := omap event_payload evs.

(** An event the loop can handle: any event that is not a message, or a
    message whose payload is valid UTF-8. *)
Definition decodable (ev : event) : Prop :=
  ev_type ev = "message" → is_Some (event_payload ev).

(** The environment injects the faults [fs], one per request, and then
    lets a request through. *)
Definition failing_then_accepting (fs : list fault) (w : World) : Prop :=
  ∃ rest, env w = map (λ f, Inject (Fault f)) fs ++ rest
          ∧ match rest with Inject _ :: _ => False | _ => True end.

(** The world in which [RedisPubsub.open] sends its ping: the two log
    lines are written and the handle is in place. *)
Definition pinging (w : World) : World :=
  log_add (Log DEBUG "pinging ..")
    (set_redis_self
       (set_r_client (Some (redis_Redis (r_env (redis_self w)))) (redis_self w))
       (log_add (Log DEBUG "connecting ..") w)).

(** From [w] to [w1] the only redis publishes are received events sent to
    the dead-letter topic. *)
Definition only_dead_letters (deadLetter : option string) : relation World :=
  λ w w1,
    ∃ extra,
      redis_sent w1 = redis_sent w ++ extra
      ∧ Forall (λ cv, truthy deadLetter = Some cv.1 ∧ ∃ ev, cv.2 = REvent ev)
          extra.

(* ===================================================================== *)
(** * Properties                                                          *)
(* ===================================================================== *)

(** Unfolds the plumbing of the exception monad. *)
Ltac run :=
  unfold mbind, M_bind, mret, M_ret, logger, logger_raised in *;
  unfold bind, ret, raise, get, modify, try_except in *.

(** ** The retry policy *)

Lemma connexion_unfold {A} fuel ex no (op : M A) w :
  connexion (S fuel) ex no op w =
    match op w with
    | (Return a, w1) => (Return (Some a), w1)
    | (Raise (Fault f), w1) =>
        if decide (f ∈ no)
        then (Return None, log_add (LogRaised DEBUG (Fault f)) w1)
        else if decide (f ∈ ex)
        then connexion fuel ex no op
               (backoff (log_add (LogRaised WARNING (Fault f)) w1))
        else (Raise (Fault f), log_add (LogRaised ERROR (Fault f)) w1)
    | (Raise e, w1) => (Raise e, w1)
    | (OutOfFuel, w1) => (OutOfFuel, w1)
    end.
Proof. reflexivity. Qed.

Lemma connexion_return {A} fuel ex no (op : M A) w a w1 :
  op w = (Return a, w1) → connexion (S fuel) ex no op w = (Return (Some a), w1).
Proof. intros H. by rewrite connexion_unfold, H. Qed.

Lemma connexion_noisy {A} fuel ex no (op : M A) w f w1 :
  op w = (Raise (Fault f), w1) → f ∈ no →
  connexion (S fuel) ex no op w
  = (Return None, log_add (LogRaised DEBUG (Fault f)) w1).
Proof. intros H Hin. rewrite connexion_unfold, H. by rewrite decide_True. Qed.

Lemma connexion_expected {A} fuel ex no (op : M A) w f w1 :
  op w = (Raise (Fault f), w1) → f ∉ no → f ∈ ex →
  connexion (S fuel) ex no op w
  = connexion fuel ex no op (backoff (log_add (LogRaised WARNING (Fault f)) w1)).
Proof.
  intros H Hno Hex. rewrite connexion_unfold, H.
  rewrite (decide_False (P := f ∈ no)) by done. by rewrite decide_True.
Qed.

Lemma connexion_unclassified {A} fuel ex no (op : M A) w f w1 :
  op w = (Raise (Fault f), w1) → f ∉ no → f ∉ ex →
  connexion (S fuel) ex no op w
  = (Raise (Fault f), log_add (LogRaised ERROR (Fault f)) w1).
Proof.
  intros H Hno Hex. rewrite connexion_unfold, H.
  rewrite (decide_False (P := f ∈ no)) by done. by rewrite decide_False.
Qed.


(** C1. Whatever the wrapped operation and the two declared fault sets,
    when the operation raises a fault [f] (leaving the world [w1]):
    if [f] is in the noisy set the wrapper returns [None] -- a no-op
    success, nothing is raised -- and if [f] is in neither set the wrapper
    raises [f] again. In both cases the world is [w1] plus one log line, so
    the operation ran once and no backoff was slept: there was no retry. *)
Theorem connexion_noisy_suppressed_unclassified_reraised :
  ∀ (A : Type) (fuel : nat) (expected_errors noisy_errors : list fault)
    (op : M A) (f : fault) (w w1 : World),
    op w = (Raise (Fault f), w1) →
    (f ∈ noisy_errors →
       connexion (S fuel) expected_errors noisy_errors op w
       = (Return None, log_add (LogRaised DEBUG (Fault f)) w1))
    ∧ (f ∉ noisy_errors → f ∉ expected_errors →
       connexion (S fuel) expected_errors noisy_errors op w
       = (Raise (Fault f), log_add (LogRaised ERROR (Fault f)) w1)).
Proof.
  intros A fuel ex no op f w w1 Hop. split.
  - intros Hin. by apply connexion_noisy.
  - intros Hno Hex. by apply connexion_unclassified.
Qed.

(** The two cases at the call sites the claim names: [create_topic] on a
    topic that exists under the sets of [check_topic], and a fault that
    the sets of [RedisPubsub.open] do not list. *)
Lemma connexion_noisy_suppressed_unclassified_reraised_witness :
  connexion 1 gcp_expected gcp_noisy create_topic world_open
  = (Return None,
     log_add (LogRaised DEBUG (Fault AlreadyExists)) world_open)
  ∧ connexion 1 redis_expected [] (raise (A:=unit) (Fault KeyError)) world0
    = (Raise (Fault KeyError),
       log_add (LogRaised ERROR (Fault KeyError)) world0).
Proof.
  split.
  - apply (connexion_noisy_suppressed_unclassified_reraised
             unit 0 gcp_expected gcp_noisy create_topic AlreadyExists
             world_open world_open).
    + vm_compute. reflexivity.
    + compute_done.
  - apply (connexion_noisy_suppressed_unclassified_reraised
             unit 0 redis_expected [] (raise (Fault KeyError)) KeyError
             world0 world0).
    + reflexivity.
    + compute_done.
    + compute_done.
Defined.

(** ** Frame properties: what a program leaves alone *)

#[global] Instance keeps_preorder {B} (proj : World → B) : PreOrder (keeps proj).
Proof.
  split; [by intros w|]. intros w1 w2 w3 H1 H2. unfold keeps in *. congruence.
Qed.

Section frame_rules.
Context (R : relation World) `{!PreOrder R}.

Lemma frame_ret {A} (a : A) : frame R (ret a).
Proof. intros w r w1 [= <- <-]. reflexivity. Qed.

Lemma frame_raise {A} e : frame R (raise (A:=A) e).
Proof. intros w r w1 [= <- <-]. reflexivity. Qed.

Lemma frame_get {A} (proj : World → A) : frame R (get proj).
Proof. intros w r w1 [= <- <-]. reflexivity. Qed.

Lemma frame_modify f : (∀ w, R w (f w)) → frame R (modify f).
Proof. intros Hf w r w1 [= <- <-]. apply Hf. Qed.

Lemma frame_bind {A B} (m : M A) (k : A → M B) :
  frame R m → (∀ a, frame R (k a)) → frame R (bind m k).
Proof.
  intros Hm Hk w r w1. unfold bind.
  destruct (m w) as [[a|e|] w2] eqn:E; intros H.
  - etrans; [by eapply Hm|by eapply Hk].
  - inversion H; subst. by eapply Hm.
  - inversion H; subst. by eapply Hm.
Qed.

Lemma frame_try_except {A} (m : M A) h :
  frame R m → (∀ e k, h e = Some k → frame R k) → frame R (try_except m h).
Proof.
  intros Hm Hh w r w1. unfold try_except.
  destruct (m w) as [[a|e|] w2] eqn:E; intros H.
  - inversion H; subst. by eapply Hm.
  - destruct (h e) as [k|] eqn:Ek.
    + etrans; [by eapply Hm|by eapply Hh].
    + inversion H; subst. by eapply Hm.
  - inversion H; subst. by eapply Hm.
Qed.

Lemma frame_connexion {A} fuel ex no (op : M A) :
  (∀ entry w, R w (log_add entry w)) → (∀ w, R w (backoff w)) →
  frame R op → frame R (connexion fuel ex no op).
Proof.
  intros Hlog Hback Hop. induction fuel as [|fuel IH]; intros w r w1.
  - intros [= <- <-]. reflexivity.
  - rewrite connexion_unfold.
    destruct (op w) as [[a|[f| |c]|] w2] eqn:E; try (intros [= <- <-]; by eapply Hop).
    destruct (decide (f ∈ no)); [|destruct (decide (f ∈ ex))].
    + intros [= <- <-]. etrans; [by eapply Hop|apply Hlog].
    + intros H. etrans; [by eapply Hop|]. etrans; [apply Hlog|].
      etrans; [apply Hback|]. by eapply IH.
    + intros [= <- <-]. etrans; [by eapply Hop|apply Hlog].
Qed.

Lemma frame_listen_loop body items w r w1 rest :
  (∀ ev, frame R (body ev)) →
  listen_loop body items w = (r, w1, rest) → R w w1.
Proof.
  intros Hbody. revert w. induction items as [|[ev|e] items IH]; intros w; simpl.
  - intros [= <- <- <-]. reflexivity.
  - destruct (body ev w) as [[[]|e|] w2] eqn:E.
    + intros H. etrans; [by eapply Hbody|by eapply IH].
    + intros [= <- <- <-]. by eapply Hbody.
    + intros [= <- <- <-]. by eapply Hbody.
  - intros [= <- <- <-]. reflexivity.
Qed.
End frame_rules.

(** ** The event loop of the key-value-store client *)

(** The loop over a stream that starts with [pre] runs [pre], then goes on
    with what follows. *)
Lemma listen_loop_app body pre post w w1 :
  listen_loop body pre w = (Return tt, w1, []) →
  listen_loop body (pre ++ post) w = listen_loop body post w1.
Proof.
  revert w. induction pre as [|[ev|e] pre IH]; intros w H; simpl in *.
  - by inversion H.
  - destruct (body ev w) as [[[]|e|] w2]; [by apply IH|done|done].
  - done.
Qed.

Lemma exec_callback_skips fuel callback ev w :
  ev_type ev ≠ "message" →
  RedisPubsub_exec_callback (S fuel) callback ev w = (Return (Some tt), w).
Proof.
  intros Hne. apply connexion_return.
  unfold RedisPubsub_exec_callback_body. by rewrite decide_False.
Qed.

(** C10. In the event loop of [RedisPubsub.consume], an event whose
    ['type'] is not ["message"] (the confirmation of the subscription, for
    one) leaves the world as it is -- the callback is not called, nothing
    is published to the dead-letter topic, nothing is logged, nothing is
    raised -- and the loop goes on with the next event. *)
Theorem non_message_event_skipped :
  ∀ (fuel : nat) (callback : Callback) (deadLetter : option string)
    (ev : event) (rest : list stream_item) (w : World),
    ev_type ev ≠ "message" →
    RedisPubsub_on_event (S fuel) callback deadLetter ev w = (Return tt, w)
    ∧ listen_loop (RedisPubsub_on_event (S fuel) callback deadLetter)
        (Event ev :: rest) w
      = listen_loop (RedisPubsub_on_event (S fuel) callback deadLetter) rest w.
Proof.
  intros fuel callback deadLetter ev rest w Hne.
  assert (H : RedisPubsub_on_event (S fuel) callback deadLetter ev w
              = (Return tt, w)).
  { unfold RedisPubsub_on_event. run. by rewrite exec_callback_skips. }
  split; [done|]. simpl. by rewrite H.
Qed.

(** The confirmation of the subscription, ahead of a message, with a
    callback that would raise. *)
Lemma non_message_event_skipped_witness :
  RedisPubsub_on_event 1 (failing (Fault KeyError)) (Some "dead")
    subscribed_event world_open
  = (Return tt, world_open)
  ∧ listen_loop (RedisPubsub_on_event 1 (failing (Fault KeyError)) (Some "dead"))
      [Event subscribed_event; Event hello_event] world_open
    = listen_loop (RedisPubsub_on_event 1 (failing (Fault KeyError)) (Some "dead"))
        [Event hello_event] world_open.
Proof.
  apply (non_message_event_skipped 0 (failing (Fault KeyError)) (Some "dead")
           subscribed_event [Event hello_event] world_open).
  compute_done.
Defined.

Lemma subscribe_returns w0 w :
  RedisPubsub_subscribe w0 = (Return tt, w) →
  ∃ h, r_client (redis_self w) = Some h.
Proof.
  unfold RedisPubsub_subscribe. run. simpl.
  destruct (r_client (redis_self w0)) as [h|] eqn:Eh; [|done].
  unfold request. simpl. intros H. exists h.
  destruct (env w0) as [|[|e|p|n t] s]; simplify_eq; simpl; try done.
  unfold other_creates_subscription. simpl.
  destruct (subscriptions w0 !! n); [done|]. by destruct (decide _).
Qed.

(** The body of [exec_callback] on a message that decodes, when the
    callback raises. *)
Lemma exec_callback_body_raises callback ev b arg e w :
  ev_type ev = "message" → ev_data ev = DataBytes b → decode_utf8 b = Some arg →
  callback (cb_calls w) arg = Some e →
  RedisPubsub_exec_callback_body callback ev w
  = (Raise e, set_cb_calls (cb_calls w ++ [arg]) w).
Proof.
  intros Hty Hdata Hdec Hcb.
  unfold RedisPubsub_exec_callback_body. rewrite decide_True by done.
  run. rewrite Hdata. simpl. unfold bytes_decode. rewrite Hdec.
  run. simpl. unfold call. by rewrite Hcb.
Qed.

(** The publish of the handler: its value is the received event, a dict,
    which the library refuses to pack. Nothing is sent. *)
Lemma dead_letter_publish_refused topic ev h w :
  r_client (redis_self w) = Some h → request_accepted w →
  ∃ w1,
    redis_client_publish topic (REvent ev) w = (Raise (Fault DataError), w1)
    ∧ redis_sent w1 = redis_sent w
    ∧ cb_calls w1 = cb_calls w
    ∧ logs w1 = logs w
    ∧ redis_stream w1 = redis_stream w.
Proof.
  intros Hh Hreq. unfold redis_client_publish, redis_encode. run. rewrite Hh.
  unfold request, request_accepted in *.
  destruct (env w) as [|[|e|p|n t] s]; simpl; try done; eauto 10.
  eexists; split; [done|]. unfold other_creates_subscription. simpl.
  destruct (subscriptions w !! n); [done|]. by destruct (decide _).
Qed.

(** One turn of the loop when the body of [exec_callback] raises a fault
    that its wrapper does not retry, with a dead-letter topic: the wrapper
    and the handler log the fault, the publish of the event is refused,
    and [DataError] leaves the handler in place of the fault. *)
Lemma on_event_dead_letter_refused fuel callback topic ev f h w wb :
  RedisPubsub_exec_callback_body callback ev w = (Raise (Fault f), wb) →
  f ∉ redis_expected → topic ≠ EmptyString →
  r_client (redis_self wb) = Some h → request_accepted wb →
  ∃ w1,
    RedisPubsub_on_event (S fuel) callback (Some topic) ev w
    = (Raise (Fault DataError), w1)
    ∧ redis_sent w1 = redis_sent wb
    ∧ cb_calls w1 = cb_calls wb
    ∧ logs w1
      = logs wb ++ [LogRaised ERROR (Fault f); LogRaised ERROR (Fault f)]
    ∧ redis_stream w1 = redis_stream wb.
Proof.
  intros Hbody Hex Htopic Hh Hreq.
  set (wl := log_add (LogRaised ERROR (Fault f))
               (log_add (LogRaised ERROR (Fault f)) wb)).
  destruct (dead_letter_publish_refused topic ev h wl)
    as (w1 & Hpub & Hs & Hc & Hl & Hstr); [done|done|].
  exists w1. split.
  - unfold RedisPubsub_on_event, RedisPubsub_exec_callback. run.
    rewrite (connexion_unclassified _ _ _ _ w f wb Hbody)
      by (apply not_elem_of_nil || done).
    cbv beta iota. unfold truthy. rewrite decide_False by done.
    fold wl. by rewrite Hpub.
  - rewrite Hs, Hc, Hl, Hstr. simpl. by rewrite <- app_assoc.
Qed.

(** Without a dead-letter topic the handler logs the fault and raises it
    again. *)
Lemma on_event_no_dead_letter fuel callback deadLetter ev f w wb :
  RedisPubsub_exec_callback_body callback ev w = (Raise (Fault f), wb) →
  f ∉ redis_expected → truthy deadLetter = None →
  RedisPubsub_on_event (S fuel) callback deadLetter ev w
  = (Raise (Fault f),
     log_add (LogRaised ERROR (Fault f))
       (log_add (LogRaised ERROR (Fault f)) wb)).
Proof.
  intros Hbody Hex Hnone.
  unfold RedisPubsub_on_event, RedisPubsub_exec_callback. run.
  rewrite (connexion_unclassified _ _ _ _ w f wb Hbody)
    by (apply not_elem_of_nil || done).
  cbv beta iota. by rewrite Hnone.
Qed.

(** Solves [frame (keeps proj) m] for a primitive [m] by running it. *)
Ltac frame_prim :=
  let w := fresh "w" in
  let r := fresh "r" in
  let w1 := fresh "w" in
  let H := fresh "H" in
  intros w r w1 H; unfold keeps;
  unfold create_topic, create_subscription, publisher_request in H;
  unfold mbind, M_bind, bind in H;
  unfold request, call, subscribe, future_cancel, ack in H;
  run; repeat case_match; simplify_eq;
  unfold other_creates_subscription, other_creates_topic;
  repeat case_match; reflexivity.

(** Solves [frame (keeps proj) m] by following the structure of [m]. *)
Ltac frame_auto :=
  repeat first
    [ apply frame_ret | apply frame_raise | apply frame_get
    | apply frame_modify; intros; reflexivity
    | apply frame_bind; [apply _| |intros ?]
    | apply frame_try_except; [apply _| |intros ? ? ?; repeat case_match; intros; simplify_eq]
    | apply frame_connexion; [apply _|intros; reflexivity|intros; reflexivity|]
    | apply _
    | progress unfold mbind, M_bind, mret, M_ret, logger, logger_raised
    | progress repeat case_match
    | frame_prim ].

Lemma frame_redis_client_publish_self channel value :
  frame (keeps redis_self) (redis_client_publish channel value).
Proof. unfold redis_client_publish, redis_encode, str_encode. frame_auto. Qed.

Lemma frame_on_event_self fuel callback deadLetter ev :
  frame (keeps redis_self) (RedisPubsub_on_event fuel callback deadLetter ev).
Proof.
  unfold RedisPubsub_on_event, RedisPubsub_exec_callback,
    RedisPubsub_exec_callback_body, redis_data_decode, bytes_decode.
  frame_auto; apply frame_redis_client_publish_self.
Qed.

Lemma consume_unfold fuel callback deadLetter w0 w :
  RedisPubsub_subscribe w0 = (Return tt, w) →
  RedisPubsub_consume_body fuel callback deadLetter w0
  = RedisPubsub_event_loop fuel callback deadLetter w.
Proof. intros H. unfold RedisPubsub_consume_body. run. by rewrite H. Qed.

Lemma for_listen_split body pre item rest w w' :
  redis_stream w = pre ++ item :: rest →
  listen_loop body pre w = (Return tt, w', []) →
  for_listen body w =
    (let '(r, w1, rem) := listen_loop body (item :: rest) w' in
     (r, set_redis_stream rem w1)).
Proof.
  intros Hs Hpre. unfold for_listen. rewrite Hs.
  by rewrite (listen_loop_app _ _ _ _ _ Hpre).
Qed.

(** The client behind [consume] after the events [pre]. *)
Lemma listen_loop_client fuel callback deadLetter pre w0 w w' :
  RedisPubsub_subscribe w0 = (Return tt, w) →
  listen_loop (RedisPubsub_on_event fuel callback deadLetter) pre w
  = (Return tt, w', []) →
  ∃ h, r_client (redis_self w') = Some h.
Proof.
  intros Hsub Hpre. destruct (subscribe_returns _ _ Hsub) as [h Hh].
  exists h. rewrite <- Hh. f_equal.
  eapply (frame_listen_loop (keeps redis_self)); [|exact Hpre].
  intros ev'. apply frame_on_event_self.
Qed.

(** A turn of the loop that raises a fault ends [consume] with it. *)
Lemma consume_event_raises fuel callback deadLetter w0 w w' w1 pre rest ev f :
  RedisPubsub_subscribe w0 = (Return tt, w) →
  redis_stream w = pre ++ Event ev :: rest →
  listen_loop (RedisPubsub_on_event (S fuel) callback deadLetter) pre w
  = (Return tt, w', []) →
  RedisPubsub_on_event (S fuel) callback deadLetter ev w' = (Raise (Fault f), w1) →
  f ∉ redis_expected →
  RedisPubsub_consume (S fuel) callback deadLetter w0
  = (Raise (Fault f),
     log_add (LogRaised ERROR (Fault f)) (set_redis_stream rest w1)).
Proof.
  intros Hsub Hstream Hpre Hev Hex.
  apply connexion_unclassified; [|apply not_elem_of_nil|done].
  rewrite (consume_unfold _ _ _ _ _ Hsub).
  unfold RedisPubsub_event_loop, try_except.
  rewrite (for_listen_split _ _ _ _ _ _ Hstream Hpre). simpl.
  by rewrite Hev.
Qed.

(** C2, which the code does not meet. [consume] has subscribed and
    handled the events [pre] without a fault. The next event is a message
    whose payload decodes to [arg], and the callback raises on [arg] a
    fault [f] that the wrapper of [exec_callback] does not retry. A
    non-empty dead-letter topic was given and the broker is reachable. The
    handler then calls [self._client.publish(deadLetter, msg)] with the
    received event, a dict, which the redis library refuses with
    [DataError]: nothing is published to the dead-letter topic, and
    [DataError] leaves [consume] in place of [f]. Of [f] there remain the
    two log lines of the wrapper and of the handler. The callback was
    called once and the later events stay in the stream. *)
Theorem callback_fault_dead_letter_refused :
  ∀ (fuel : nat) (callback : Callback) (topic : string) (w0 w w' : World)
    (pre rest : list stream_item) (ev : event) (b : list N) (arg : list N)
    (f : fault),
    RedisPubsub_subscribe w0 = (Return tt, w) →
    redis_stream w = pre ++ Event ev :: rest →
    listen_loop (RedisPubsub_on_event (S fuel) callback (Some topic)) pre w
    = (Return tt, w', []) →
    ev_type ev = "message" → ev_data ev = DataBytes b →
    decode_utf8 b = Some arg →
    callback (cb_calls w') arg = Some (Fault f) →
    f ∉ redis_expected → topic ≠ EmptyString → request_accepted w' →
    ∃ w1,
      RedisPubsub_consume (S fuel) callback (Some topic) w0
      = (Raise (Fault DataError), w1)
      ∧ redis_sent w1 = redis_sent w'
      ∧ cb_calls w1 = cb_calls w' ++ [arg]
      ∧ redis_stream w1 = rest
      ∧ logs w1
        = logs w' ++ [LogRaised ERROR (Fault f); LogRaised ERROR (Fault f);
                      LogRaised ERROR (Fault DataError)].
Proof.
  intros fuel callback topic w0 w w' pre rest ev b arg f
    Hsub Hstream Hpre Hty Hdata Hdec Hcb Hex Htopic Hreq.
  destruct (listen_loop_client _ _ _ _ _ _ _ Hsub Hpre) as [h Hh].
  pose proof (exec_callback_body_raises callback ev b arg (Fault f) w'
                Hty Hdata Hdec Hcb) as Hbody.
  destruct (on_event_dead_letter_refused fuel callback topic ev f h w' _
              Hbody Hex Htopic Hh Hreq)
    as (w1 & Hev & Hsent & Hcalls & Hlogs & _).
  exists (log_add (LogRaised ERROR (Fault DataError)) (set_redis_stream rest w1)).
  split.
  - apply (consume_event_raises _ _ _ _ _ _ _ _ _ _ _ Hsub Hstream Hpre Hev).
    compute_done.
  - simpl. rewrite Hsent, Hcalls, Hlogs. simpl.
    by rewrite <- app_assoc.
Qed.

(** A callback that raises [ValueError] on the first message after the
    confirmation of the subscription, with the dead-letter topic ["dead"]. *)
Lemma callback_fault_dead_letter_refused_witness :
  let w0 := set_redis_stream
              [Event subscribed_event; Event hello_event; Event hello_event]
              world_open in
  let w := snd (RedisPubsub_subscribe w0) in
  ∃ w1,
    RedisPubsub_consume 1 (failing (Fault (UserError "ValueError")))
      (Some "dead") w0
    = (Raise (Fault DataError), w1)
    ∧ redis_sent w1 = redis_sent w
    ∧ cb_calls w1 = cb_calls w ++ [hello]
    ∧ redis_stream w1 = [Event hello_event]
    ∧ logs w1
      = logs w ++ [LogRaised ERROR (Fault (UserError "ValueError"));
                   LogRaised ERROR (Fault (UserError "ValueError"));
                   LogRaised ERROR (Fault DataError)].
Proof.
  intros w0 w.
  apply (callback_fault_dead_letter_refused 0
           (failing (Fault (UserError "ValueError"))) "dead" w0 w w
           [Event subscribed_event] [Event hello_event] hello_event
           hello hello (UserError "ValueError")).
  - vm_compute. reflexivity.
  - vm_compute. reflexivity.
  - vm_compute. reflexivity.
  - reflexivity.
  - reflexivity.
  - vm_compute. reflexivity.
  - reflexivity.
  - compute_done.
  - compute_done.
  - vm_compute. exact I.
Defined.

(** A callback fault that never reaches the handler: it is a
    [redis.exceptions.ConnectionError], which the wrapper of
    [exec_callback] declares as expected. The wrapper sleeps one backoff
    and calls the callback again; no fault leaves [consume], and the loop
    runs to the end of the stream. *)
Lemma callback_fault_retried_counterexample :
  let w0 := set_redis_stream [Event subscribed_event; Event hello_event]
              world_open in
  let callback := failing_once (Fault ConnectionError) in
  let run := RedisPubsub_consume 2 callback (Some "dead") w0 in
  callback (cb_calls w0) hello = Some (Fault ConnectionError)
  ∧ fst run = Return (Some tt)
  ∧ redis_sent (snd run) = []
  ∧ cb_calls (snd run) = [hello; hello]
  ∧ backoffs (snd run) = 1.
Proof. vm_compute. repeat split; reflexivity. Qed.

(** A callback that raises the expected fault on every call keeps the
    wrapper retrying: whatever bound is put on the attempts, it is reached,
    and nothing is published to the dead-letter topic meanwhile. *)
Lemma callback_fault_retried_forever fuel callback deadLetter ev b arg w :
  ev_type ev = "message" → ev_data ev = DataBytes b →
  decode_utf8 b = Some arg →
  (∀ history x, callback history x = Some (Fault ConnectionError)) →
  ∃ w1,
    RedisPubsub_on_event fuel callback deadLetter ev w = (OutOfFuel, w1)
    ∧ redis_sent w1 = redis_sent w.
Proof.
  intros Hty Hdata Hdec Hcb.
  assert (∃ w1, RedisPubsub_exec_callback fuel callback ev w = (OutOfFuel, w1)
                ∧ redis_sent w1 = redis_sent w) as (w1 & Hrun & Hsent).
  { unfold RedisPubsub_exec_callback. revert w.
    induction fuel as [|fuel IH]; intros w; [by eexists|].
    rewrite (connexion_expected _ _ _ _ w ConnectionError
               (set_cb_calls (cb_calls w ++ [arg]) w)).
    - destruct (IH (backoff (log_add (LogRaised WARNING (Fault ConnectionError))
                                (set_cb_calls (cb_calls w ++ [arg]) w))))
        as (w1 & -> & Hsent).
      by exists w1.
    - unfold RedisPubsub_exec_callback_body. rewrite decide_True by done.
      run. rewrite Hdata. simpl. unfold bytes_decode. rewrite Hdec.
      run. simpl. unfold call. by rewrite Hcb.
    - apply not_elem_of_nil.
    - set_solver. }
  exists w1. split; [|done].
  unfold RedisPubsub_on_event. run. by rewrite Hrun.
Qed.

(** [if deadLetter:] -- an empty topic name counts as none: the fault is
    raised again but nothing is published. *)
Example empty_dead_letter_topic_skipped :
  let w0 := set_redis_stream [Event hello_event] world_open in
  let run := RedisPubsub_consume 1 (failing (Fault KeyError)) (Some EmptyString) w0 in
  fst run = Raise (Fault KeyError) ∧ redis_sent (snd run) = [].
Proof. vm_compute. split; reflexivity. Qed.



(** ** The wrapper callback of the cloud client *)


(** What one run of the body does, by what decoding and the callback do. *)
Lemma exec_callback_body_cases callback m w :
  match decode_utf8 (data m) with
  | None =>
      GCPPubSub_exec_callback_body callback m w
      = (Raise (Fault MessageProcessingException),
         log_add (LogRaised ERROR (Fault UnicodeDecodeError)) w)
  | Some arg =>
      let w1 := set_cb_calls (cb_calls w ++ [arg]) w in
      match callback (cb_calls w) arg with
      | None =>
          GCPPubSub_exec_callback_body callback m w
          = (Return tt, set_acked (acked w ++ [m]) w1)
      | Some (Fault f) =>
          GCPPubSub_exec_callback_body callback m w
          = (Raise (Fault MessageProcessingException),
             log_add (LogRaised ERROR (Fault f)) w1)
      | Some e => GCPPubSub_exec_callback_body callback m w = (Raise e, w1)
      end
  end.
Proof.
  unfold GCPPubSub_exec_callback_body, bytes_decode. run.
  destruct (decode_utf8 (data m)) as [arg|]; simpl; [|done].
  unfold call. by destruct (callback (cb_calls w) arg) as [[f| |c]|].
Qed.








(** ** What the cloud client's [consume] leaves alone *)

(** Any relation on worlds that every primitive step of the client
    respects is respected by provisioning, by the wrapper callback and by
    [consume] as a whole. *)
Section gcp_frames.
Context (R : relation World) `{!PreOrder R}.
Context (Rlog : ∀ entry w, R w (log_add entry w)).
Context (Rbackoff : ∀ w, R w (backoff w)).
Context (Rrequest : frame R request).
Context (Rcall : ∀ callback arg, frame R (call callback arg)).
Context (Rcreate_topic : frame R create_topic).
Context (Rcreate_subscription : ∀ name topic,
           frame R (create_subscription name topic)).
Context (Racked : ∀ x w, R w (set_acked x w)).
Context (Rworker : ∀ x w, R w (set_worker_raised x w)).
Context (Rsessions : ∀ x w, R w (set_sessions x w)).
Context (Rcancelled : ∀ x w, R w (set_futures_cancelled x w)).
Context (Rclosed : ∀ x w, R w (set_subscribers_closed x w)).

Ltac frame_gcp :=
  repeat first
    [ apply frame_ret | apply frame_raise | apply frame_get
    | apply frame_modify; intros;
        first [apply Rlog | apply Racked | apply Rcancelled ]
    | apply Rrequest | apply Rcall | apply Rcreate_topic
    | apply Rcreate_subscription | assumption
    | apply frame_bind; [apply _| |intros ?]
    | apply frame_try_except;
        [apply _| |intros ? ? ?; repeat case_match; intros; simplify_eq]
    | apply frame_connexion; [apply _|apply Rlog|apply Rbackoff|]
    | progress unfold mbind, M_bind, mret, M_ret, logger, logger_raised
    | progress repeat case_match ].

Lemma frame_get_topic : frame R get_topic.
Proof. unfold get_topic, publisher_request. frame_gcp. Qed.

Lemma frame_get_subscription subscription :
  frame R (get_subscription subscription).
Proof. unfold get_subscription. frame_gcp. Qed.

Lemma frame_check_topic fuel : frame R (GCPPubSub_check_topic fuel).
Proof.
  unfold GCPPubSub_check_topic, GCPPubSub_check_topic_body, get_topic,
    publisher_request.
  frame_gcp.
Qed.

Lemma frame_check_subscription fuel subscription :
  frame R (GCPPubSub_check_subscription fuel subscription).
Proof.
  unfold GCPPubSub_check_subscription, GCPPubSub_check_subscription_body,
    get_subscription.
  frame_gcp.
Qed.

Lemma frame_exec_callback fuel callback m :
  frame R (GCPPubSub_exec_callback fuel callback m).
Proof.
  unfold GCPPubSub_exec_callback, GCPPubSub_exec_callback_body, bytes_decode, ack.
  frame_gcp.
Qed.

Lemma frame_deliver fuel callback m : frame R (deliver fuel callback m).
Proof.
  intros w r w1. unfold deliver.
  destruct (GCPPubSub_exec_callback fuel callback m w) as [[a|e|] w2] eqn:E;
    intros [= <- <-]; try by eapply frame_exec_callback.
  etrans; [by eapply frame_exec_callback|apply Rworker].
Qed.

Lemma frame_deliveries fuel callback ms : frame R (deliveries fuel callback ms).
Proof.
  induction ms as [|m ms IH]; simpl; [by apply frame_ret|].
  apply frame_bind; try assumption; [apply frame_deliver|by intros].
Qed.

Lemma frame_with_subscriber {A} (block : M A) :
  frame R block → frame R (with_subscriber block).
Proof.
  intros Hb w r w1. unfold with_subscriber.
  destruct (block w) as [[a|e|] w2] eqn:E; intros [= <- <-];
    try (etrans; [by eapply Hb|apply Rclosed]).
  by eapply Hb.
Qed.

Lemma frame_subscribe : frame R subscribe.
Proof.
  intros w r w1. unfold subscribe. destruct (sessions w); intros [= <- <-];
    [reflexivity|apply Rsessions].
Qed.

Lemma frame_consume fuel callback subscription deadLetter :
  frame R (GCPPubSub_consume fuel callback subscription deadLetter).
Proof.
  unfold GCPPubSub_consume, GCPPubSub_consume_body, future_result, future_cancel.
  frame_gcp; try apply frame_with_subscriber; frame_gcp;
    first [apply frame_subscribe | apply frame_deliveries].
Qed.
End gcp_frames.

(** C8. [GCPPubSub.consume] never looks at its [deadLetter] argument:
    two calls that differ in it only do the same thing. And whatever is
    delivered and whatever the callback does, a call publishes nothing,
    to the dead-letter topic or to any other: the list of messages the
    cloud service accepted is the same after the call, and so is the list
    of the key-value store. *)
Theorem gcp_consume_ignores_dead_letter :
  ∀ (fuel : nat) (callback : Callback) (subscription : option string)
    (deadLetter deadLetter' : option string) (w : World),
    GCPPubSub_consume fuel callback subscription deadLetter w
    = GCPPubSub_consume fuel callback subscription deadLetter' w
    ∧ gcp_sent (snd (GCPPubSub_consume fuel callback subscription deadLetter w))
      = gcp_sent w
    ∧ redis_sent (snd (GCPPubSub_consume fuel callback subscription deadLetter w))
      = redis_sent w.
Proof.
  intros fuel callback subscription deadLetter deadLetter' w.
  split; [reflexivity|].
  destruct (GCPPubSub_consume fuel callback subscription deadLetter w)
    as [r w1] eqn:E.
  split.
  - eapply (frame_consume (keeps gcp_sent)); last exact E;
      first [apply _ | by intros | frame_prim | intros; frame_prim].
  - eapply (frame_consume (keeps redis_sent)); last exact E;
      first [apply _ | by intros | frame_prim | intros; frame_prim].
Qed.

(** ** Provisioning *)

#[global] Instance grows_preorder : PreOrder grows.
Proof.
  split.
  - by intros w.
  - intros w1 w2 w3 (?&?&?&?&?&?) (?&?&?&?&?&?).
    split_and!; [congruence|congruence|set_solver|by etrans|tauto|tauto].
Qed.

Lemma grows_log_add entry w : grows w (log_add entry w).
Proof. done. Qed.

Lemma grows_backoff w : grows w (backoff w).
Proof. done. Qed.

Lemma calm_tail s ss w : env w = s :: ss → calm w → Forall benign ss.
Proof. unfold calm. intros -> H. by inversion H. Qed.

Lemma frame_grows_request : frame grows request.
Proof.
  intros w r w1. unfold request.
  destruct (env w) as [|[|e|p|n t] s] eqn:E; intros [= <- <-];
    [reflexivity|..];
    unfold other_creates_subscription; simpl; repeat case_match;
    split_and!; simpl; try done.
  all: try (intros Hc; eapply calm_tail; eauto; fail).
  all: try (intros; congruence).
  - set_solver.
  - by apply insert_subseteq.
Qed.

Lemma frame_grows_create_topic : frame grows create_topic.
Proof.
  unfold create_topic, publisher_request. run.
  intros w r w1 H. repeat case_match; simplify_eq.
  all: try reflexivity.
  all: try (by eapply frame_grows_request).
  etrans; [by eapply frame_grows_request|].
  split_and!; try done. simpl. set_solver.
Qed.

Lemma frame_grows_create_subscription name topic :
  frame grows (create_subscription name topic).
Proof.
  unfold create_subscription. run.
  intros w r w1 H. repeat case_match; simplify_eq.
  all: try (by eapply frame_grows_request).
  etrans; [by eapply frame_grows_request|].
  split_and!; try done. simpl. by apply insert_subseteq.
Qed.

Lemma frame_grows_call callback arg : frame grows (call callback arg).
Proof.
  intros w r w1. unfold call. destruct (callback _ _); by intros [= <- <-].
Qed.

Lemma frame_grows_check_topic fuel : frame grows (GCPPubSub_check_topic fuel).
Proof.
  apply frame_check_topic;
    first [apply _ | apply frame_grows_request | apply frame_grows_create_topic
          | done].
Qed.

Lemma frame_grows_check_subscription fuel subscription :
  frame grows (GCPPubSub_check_subscription fuel subscription).
Proof.
  apply frame_check_subscription;
    first [apply _ | apply frame_grows_request | apply frame_grows_create_topic
          | apply frame_grows_create_subscription | done].
Qed.

Lemma opened_grows path w w1 : grows w w1 → opened path w → opened path w1.
Proof. intros (Hs&_) [? ?]. unfold opened. by rewrite Hs. Qed.

Lemma calm_grows w w1 : grows w w1 → calm w → calm w1.
Proof. intros (_&_&_&_&H&_). exact H. Qed.

Lemma request_calm w : calm w → ∃ w1, request w = (Return tt, w1).
Proof.
  unfold calm, request. intros Hc.
  destruct (env w) as [|[|e|p|n t] s]; eauto.
  by inversion Hc.
Qed.

Lemma publisher_request_calm path w :
  opened path w → calm w → ∃ w1, publisher_request w = (Return path, w1).
Proof.
  intros [Hp Ht] Hc. unfold publisher_request. run. cbv beta iota.
  rewrite Hp, Ht. destruct (request_calm w Hc) as [w1 ->]. eauto.
Qed.

Lemma get_topic_calm path w :
  opened path w → calm w →
  ∃ w1, (get_topic w = (Return tt, w1) ∧ path ∈ topics w1)
        ∨ get_topic w = (Raise (Fault NotFound), w1).
Proof.
  intros Ho Hc. destruct (publisher_request_calm path w Ho Hc) as [w1 H].
  exists w1. unfold get_topic. run. rewrite H. cbv beta iota.
  destruct (decide (path ∈ topics w1)); eauto.
Qed.

Lemma create_topic_calm path w :
  opened path w → calm w →
  ∃ w1, path ∈ topics w1
        ∧ (create_topic w = (Return tt, w1)
           ∨ create_topic w = (Raise (Fault AlreadyExists), w1)).
Proof.
  intros Ho Hc. destruct (publisher_request_calm path w Ho Hc) as [w1 H].
  unfold create_topic. run. rewrite H. cbv beta iota.
  destruct (decide (path ∈ topics w1)).
  - exists w1. eauto.
  - eexists. split; [|by left]. simpl. set_solver.
Qed.

Lemma check_topic_body_run w :
  GCPPubSub_check_topic_body w =
    match get_topic
            (log_add (Log DEBUG ("checking  .. topic="
                                 +:+ show (g_topic_path (gcp_self w)))) w) with
    | (Raise (Fault NotFound), w1) =>
        create_topic
          (log_add (Log INFO ("creating new topic .. "
                              +:+ show (g_topic_path (gcp_self w1)))) w1)
    | r => r
    end.
Proof.
  unfold GCPPubSub_check_topic_body. run. cbv beta iota.
  by destruct (get_topic _) as [[[]|[[]| |]|] ?].
Qed.

Lemma frame_grows_get_topic : frame grows get_topic.
Proof.
  apply frame_get_topic; first [apply _ | apply frame_grows_request | done].
Qed.

Lemma frame_grows_get_subscription subscription :
  frame grows (get_subscription subscription).
Proof.
  apply frame_get_subscription;
    first [apply _ | apply frame_grows_request | done].
Qed.

(** With a client that is open and an environment that fails no request,
    [check_topic] returns and the topic exists afterwards. *)
Lemma check_topic_calm fuel path w :
  opened path w → calm w →
  ∃ r w1, GCPPubSub_check_topic (S fuel) w = (Return r, w1)
          ∧ path ∈ topics w1.
Proof.
  intros Ho Hc. unfold GCPPubSub_check_topic.
  pose proof (check_topic_body_run w) as Hrun.
  set (wl := log_add _ w) in Hrun.
  destruct (get_topic_calm path wl) as [wa [[Hg Hin]|Hg]]; [done..| |].
  - rewrite Hg in Hrun. eexists _, _. split; [by apply connexion_return|done].
  - rewrite Hg in Hrun. set (wb := log_add _ wa) in Hrun.
    assert (grows w wb) as Hgr.
    { trans wl; [apply grows_log_add|].
      trans wa; [by eapply frame_grows_get_topic|apply grows_log_add]. }
    destruct (create_topic_calm path wb) as (wc & Hin & [Hcr|Hcr]);
      [by eapply opened_grows|by eapply calm_grows| |]; rewrite Hcr in Hrun.
    + eexists _, _. split; [by apply connexion_return|done].
    + eexists _, _. split; [apply connexion_noisy; [done|set_solver]|done].
Qed.

Lemma get_subscription_calm subscription w :
  calm w →
  ∃ w1, (∃ t, get_subscription subscription w = (Return t, w1)
              ∧ subscriptions w1 !! subscription = Some t)
        ∨ get_subscription subscription w = (Raise (Fault NotFound), w1).
Proof.
  intros Hc. destruct (request_calm w Hc) as [w1 H]. exists w1.
  unfold get_subscription. run. rewrite H. cbv beta iota.
  destruct (subscriptions w1 !! subscription) as [t|] eqn:E; eauto.
Qed.

Lemma create_subscription_calm subscription path w :
  calm w → path ∈ topics w →
  ∃ w1, is_Some (subscriptions w1 !! subscription)
        ∧ (create_subscription subscription (Some path) w = (Return tt, w1)
           ∨ create_subscription subscription (Some path) w
             = (Raise (Fault AlreadyExists), w1)).
Proof.
  intros Hc Hin. destruct (request_calm w Hc) as [w1 H].
  assert (path ∈ topics w1) as Hin1.
  { apply frame_grows_request in H as (_&_&Ht&_). set_solver. }
  unfold create_subscription. run. rewrite H. cbv beta iota.
  destruct (subscriptions w1 !! subscription) as [t|] eqn:E.
  - exists w1. eauto.
  - rewrite decide_True by done. eexists. split; [|by left].
    simpl. by rewrite lookup_insert_eq.
Qed.

Lemma check_subscription_calm fuel path subscription w :
  opened path w → calm w →
  ∃ r w1,
    GCPPubSub_check_subscription (S fuel) subscription w = (Return r, w1)
    ∧ path ∈ topics w1
    ∧ is_Some (subscriptions w1 !! subscription).
Proof.
  intros Ho Hc. unfold GCPPubSub_check_subscription.
  destruct (check_topic_calm fuel path w Ho Hc) as (r0 & w1 & Hct & Hin1).
  pose proof (frame_grows_check_topic _ _ _ _ Hct) as Hg1.
  assert (∃ r w2,
            (GCPPubSub_check_subscription_body (S fuel) subscription w = (Return tt, w2)
             ∨ GCPPubSub_check_subscription_body (S fuel) subscription w
               = (Raise (Fault AlreadyExists), w2))
            ∧ r = tt ∧ path ∈ topics w2
            ∧ is_Some (subscriptions w2 !! subscription)) as (_ & w2 & Hb & _ & Hin & Hsub).
  { unfold GCPPubSub_check_subscription_body. run. rewrite Hct. cbv beta iota.
    match goal with
    | |- context [get_subscription ?s ?w] =>
        set (wl := w);
        destruct (get_subscription_calm s wl) as [wa [(t & Hgs & Ht)|Hgs]];
        [eapply calm_grows; [|exact Hc]; trans w1; [done|apply grows_log_add]
        | |]; rewrite Hgs; cbv beta iota
    end.
    - exists tt. eexists. split; [by left|]. split; [done|].
      apply frame_grows_get_subscription in Hgs as (_&_&Htop&_).
      simpl. split; [set_solver|by eexists].
    - assert (grows w1 wa) as Hga.
      { trans wl; [apply grows_log_add|].
        by eapply frame_grows_get_subscription. }
      assert (calm wa) as Hca by (eapply calm_grows; [|exact Hc]; by trans w1).
      destruct Ho as [Hp Hpath].
      destruct Hg1 as (Hself1 & _). destruct Hga as (Hselfa & _ & Htopa & _).
      replace (g_topic_path (gcp_self _)) with (Some path)
        by (simpl; rewrite Hselfa, Hself1; done).
      match goal with
      | |- context [create_subscription ?s _ ?w] =>
          destruct (create_subscription_calm s path w) as (wc & Hsome & Hcr)
      end.
      { exact Hca. }
      { simpl. set_solver. }
      assert (path ∈ topics wc) as Hinc.
      { destruct Hcr as [Hcr|Hcr];
          apply frame_grows_create_subscription in Hcr as (_&_&Ht&_);
          simpl in Ht; set_solver. }
      exists tt, wc. destruct Hcr as [-> | ->]; eauto. }
  destruct Hb as [Hb|Hb].
  - eexists _, _. split; [by apply connexion_return|done].
  - eexists _, _. split; [apply connexion_noisy; [done|set_solver]|done].
Qed.

Lemma get_topic_quiet path w :
  opened path w → env w = [] →
  get_topic w
  = if decide (path ∈ topics w) then (Return tt, w)
    else (Raise (Fault NotFound), w).
Proof.
  intros [Hp Ht] He. unfold get_topic, publisher_request, request. run.
  rewrite Hp, Ht, He. cbv beta iota. by destruct (decide _).
Qed.

Lemma create_topic_quiet path w :
  opened path w → env w = [] → path ∉ topics w →
  create_topic w = (Return tt, set_topics ({[path]} ∪ topics w) w).
Proof.
  intros [Hp Ht] He Hn. unfold create_topic, publisher_request, request. run.
  rewrite Hp, Ht, He. cbv beta iota. by rewrite decide_False.
Qed.

Lemma check_topic_quiet fuel path w :
  opened path w → env w = [] →
  ∃ w1, GCPPubSub_check_topic (S fuel) w = (Return (Some tt), w1)
        ∧ topics w1 = {[path]} ∪ topics w
        ∧ subscriptions w1 = subscriptions w
        ∧ (path ∈ topics w →
           w1 = log_add (Log DEBUG ("checking  .. topic=" +:+ path)) w).
Proof.
  intros Ho He. unfold GCPPubSub_check_topic.
  pose proof (check_topic_body_run w) as Hrun.
  rewrite (get_topic_quiet path) in Hrun by done.
  assert (g_topic_path (gcp_self w) = Some path) as Hpath by apply Ho.
  simpl in Hrun. destruct (decide (path ∈ topics w)) as [Hin|Hn].
  - eexists. split; [by apply connexion_return|].
    simpl. rewrite Hpath. split_and!; [|done|done].
    symmetry. apply subseteq_union_1_L. by apply singleton_subseteq_l.
  - rewrite (create_topic_quiet path) in Hrun by done.
    eexists. split; [by apply connexion_return|]. simpl. by split_and!.
Qed.

Lemma check_subscription_quiet fuel path subscription w :
  opened path w → env w = [] →
  ∃ w1,
    GCPPubSub_check_subscription (S fuel) subscription w = (Return (Some tt), w1)
    ∧ topics w1 = {[path]} ∪ topics w
    ∧ subscriptions w1
      = match subscriptions w !! subscription with
        | Some _ => subscriptions w
        | None => <[subscription := path]> (subscriptions w)
        end.
Proof.
  intros Ho He. unfold GCPPubSub_check_subscription.
  destruct (check_topic_quiet fuel path w Ho He) as (w1 & Hct & Ht & Hs & _).
  pose proof (frame_grows_check_topic _ _ _ _ Hct) as (Hself & _ & _ & _ & _ & He1).
  specialize (He1 He).
  assert (path ∈ topics w1) as Hin
    by (rewrite Ht; apply elem_of_union_l; by apply elem_of_singleton).
  assert (g_topic_path (gcp_self w1) = Some path) as Hpath
    by (rewrite Hself; apply Ho).
  assert (Hrun : GCPPubSub_check_subscription_body (S fuel) subscription w
                 = match subscriptions w !! subscription with
                   | Some t =>
                       (Return tt,
                        log_add (Log DEBUG ("name=" +:+ subscription
                                            +:+ ", topic=" +:+ t))
                          (log_add (Log DEBUG ("checking subscription .. "
                                               +:+ subscription)) w1))
                   | None =>
                       (Return tt,
                        set_subscriptions
                          (<[subscription := path]> (subscriptions w))
                          (log_add (Log INFO ("registering new subscription .. "
                                              +:+ subscription))
                             (log_add (Log DEBUG ("checking subscription .. "
                                                  +:+ subscription)) w1)))
                   end).
  { unfold GCPPubSub_check_subscription_body, get_subscription,
      create_subscription, request. run. rewrite Hct. simpl.
    rewrite He1. simpl. rewrite Hs.
    destruct (subscriptions w !! subscription) as [t|] eqn:E; simpl.
    + reflexivity.
    + rewrite He1. simpl. rewrite Hs, E, Hpath. simpl.
      rewrite decide_True by done. reflexivity. }
  destruct (subscriptions w !! subscription) as [t|] eqn:E;
    (eexists; split; [by apply connexion_return|done]).
Qed.

(** C6. The cloud client is open on the topic [path] and the environment
    fails no request (other clients may still create topics and
    subscriptions in between). Then [check_topic] run twice in a row
    returns both times and the topic exists after each run; and
    [check_subscription] run twice in a row returns both times, the
    subscription exists after the first run and is the same one, bound
    to the same topic, after the second. When nobody else touches the
    service, the first [check_topic] adds this topic and no other, and
    the second run of either step leaves the registry as it found it. *)
Theorem provisioning_idempotent :
  ∀ (fuel : nat) (path subscription : string) (w : World),
    opened path w → calm w →
    (∃ r1 w1 r2 w2,
        GCPPubSub_check_topic (S fuel) w = (Return r1, w1)
        ∧ GCPPubSub_check_topic (S fuel) w1 = (Return r2, w2)
        ∧ path ∈ topics w1 ∧ path ∈ topics w2
        ∧ (env w = [] →
           topics w1 = {[path]} ∪ topics w
           ∧ topics w2 = topics w1
           ∧ subscriptions w2 = subscriptions w))
    ∧ (∃ r1 w1 r2 w2,
        GCPPubSub_check_subscription (S fuel) subscription w = (Return r1, w1)
        ∧ GCPPubSub_check_subscription (S fuel) subscription w1 = (Return r2, w2)
        ∧ path ∈ topics w2
        ∧ (∃ t, subscriptions w1 !! subscription = Some t
                ∧ subscriptions w2 !! subscription = Some t)
        ∧ (env w = [] →
           topics w2 = topics w1 ∧ subscriptions w2 = subscriptions w1)).
Proof.
  intros fuel path subscription w Ho Hc. split.
  - destruct (check_topic_calm fuel path w Ho Hc) as (r1 & w1 & H1 & Hin1).
    pose proof (frame_grows_check_topic _ _ _ _ H1) as Hg1.
    destruct (check_topic_calm fuel path w1) as (r2 & w2 & H2 & Hin2);
      [by eapply opened_grows|by eapply calm_grows|].
    exists r1, w1, r2, w2. split_and!; try done.
    intros He.
    destruct (check_topic_quiet fuel path w Ho He) as (w1' & H1' & Ht1 & Hs1 & _).
    rewrite H1 in H1'. injection H1' as _ <-.
    destruct (check_topic_quiet fuel path w1) as (w2' & H2' & Ht2 & Hs2 & _);
      [by eapply opened_grows|by apply Hg1|].
    rewrite H2 in H2'. injection H2' as _ <-.
    split_and!; [done| |congruence].
    rewrite Ht2. apply subseteq_union_1_L. by apply singleton_subseteq_l.
  - destruct (check_subscription_calm fuel path subscription w Ho Hc)
      as (r1 & w1 & H1 & Hin1 & [t Hsub1]).
    pose proof (frame_grows_check_subscription _ _ _ _ _ H1) as Hg1.
    destruct (check_subscription_calm fuel path subscription w1)
      as (r2 & w2 & H2 & Hin2 & _);
      [by eapply opened_grows|by eapply calm_grows|].
    pose proof (frame_grows_check_subscription _ _ _ _ _ H2) as Hg2.
    exists r1, w1, r2, w2. split_and!; try done.
    + exists t. split; [done|].
      destruct Hg2 as (_&_&_&Hsub&_). by eapply lookup_weaken.
    + intros He.
      destruct (check_subscription_quiet fuel path subscription w1)
        as (w2' & H2' & Ht2 & Hs2);
        [by eapply opened_grows|by apply Hg1|].
      rewrite H2 in H2'. injection H2' as _ <-.
      rewrite Hsub1 in Hs2. split; [|done].
      rewrite Ht2. apply subseteq_union_1_L. by apply singleton_subseteq_l.
Qed.

(** Provisioning on an empty service while another client creates the same
    topic in between. *)
Lemma provisioning_idempotent_witness :
  let path := "projects/demo/topics/t" in
  let subscription := "projects/demo/subscriptions/tesselite" in
  let w := set_env [Quiet; OtherCreatesTopic path] (set_topics ∅ world_open) in
  (∃ r1 w1 r2 w2,
      GCPPubSub_check_topic 1 w = (Return r1, w1)
      ∧ GCPPubSub_check_topic 1 w1 = (Return r2, w2)
      ∧ path ∈ topics w1 ∧ path ∈ topics w2
      ∧ (env w = [] →
         topics w1 = {[path]} ∪ topics w
         ∧ topics w2 = topics w1
         ∧ subscriptions w2 = subscriptions w))
  ∧ (∃ r1 w1 r2 w2,
      GCPPubSub_check_subscription 1 subscription w = (Return r1, w1)
      ∧ GCPPubSub_check_subscription 1 subscription w1 = (Return r2, w2)
      ∧ path ∈ topics w2
      ∧ (∃ t, subscriptions w1 !! subscription = Some t
              ∧ subscriptions w2 !! subscription = Some t)
      ∧ (env w = [] →
         topics w2 = topics w1 ∧ subscriptions w2 = subscriptions w1)).
Proof.
  intros path subscription w.
  apply (provisioning_idempotent 0 path subscription w).
  - split; reflexivity.
  - compute_done.
Defined.

(** The race of the claim: the topic is missing when [check_topic] looks,
    another client creates it before [create_topic] is sent, the service
    answers [AlreadyExists], and the call returns all the same. *)
Example check_topic_lost_race :
  let path := "projects/demo/topics/t" in
  let w := set_env [Quiet; OtherCreatesTopic path] (set_topics ∅ world_open) in
  fst (get_topic w) = Raise (Fault NotFound)
  ∧ fst (create_topic (snd (get_topic w))) = Raise (Fault AlreadyExists)
  ∧ fst (GCPPubSub_check_topic 1 w) = Return None.
Proof. vm_compute. repeat split; reflexivity. Qed.

(** ** Interruption *)

(** Discharges the side conditions of a frame lemma at [keeps proj]. *)
Ltac keeps_side := first [apply _ | by intros | frame_prim | intros; frame_prim].

Lemma deliver_returns fuel callback m w :
  ∃ w1, deliver fuel callback m w = (Return tt, w1).
Proof.
  unfold deliver.
  destruct (GCPPubSub_exec_callback fuel callback m w) as [[a|e|] w1]; eauto.
Qed.

Lemma deliveries_returns fuel callback ms w :
  ∃ w1, deliveries fuel callback ms w = (Return tt, w1).
Proof.
  revert w. induction ms as [|m ms IH]; intros w; simpl; [by eexists|].
  run. destruct (deliver_returns fuel callback m w) as [w1 ->]. apply IH.
Qed.








(** ** [close] *)

(** C9. [RedisPubsub.close] on a client that was constructed and never
    opened: [self._client] is still [None], and [self._client.close()]
    raises [AttributeError]. The claim asks for a [close] that returns in
    every state. *)
Theorem redis_close_before_open_raises :
  ∀ (topic : string) (e : RedisEnv) (w : World),
    RedisPubsub_close (set_redis_self (RedisPubsub_init topic e) w)
    = (Raise (Fault AttributeError),
       set_redis_self (RedisPubsub_init topic e) w).
Proof. reflexivity. Qed.

(** Once [open] has set the handle, and for the cloud client in every
    state, [close] returns. *)
Lemma redis_close_after_open_returns h w :
  r_client (redis_self w) = Some h →
  RedisPubsub_close w
  = (Return tt,
     log_add (Log DEBUG "terminated.")
       (set_redis_self (set_r_client (Some (release h)) (redis_self w)) w)).
Proof. intros H. unfold RedisPubsub_close. run. by rewrite H. Qed.

Lemma gcp_close_returns w :
  GCPPubSub_close w = (Return tt, log_add (Log DEBUG "terminated.") w).
Proof. reflexivity. Qed.

(** ** The factory *)

Lemma lower_upper_ascii c : lower_ascii (upper_ascii c) = lower_ascii c.
Proof. by destruct c as [[] [] [] [] [] [] [] []]. Qed.

Lemma upper_lower_ascii c : upper_ascii (lower_ascii c) = upper_ascii c.
Proof. by destruct c as [[] [] [] [] [] [] [] []]. Qed.

Lemma lower_upper s : lower (ascii_upper s) = lower s.
Proof. induction s as [|c s IH]; simpl; [done|]. by rewrite lower_upper_ascii, IH. Qed.

Lemma upper_lower s : ascii_upper (lower s) = ascii_upper s.
Proof. induction s as [|c s IH]; simpl; [done|]. by rewrite upper_lower_ascii, IH. Qed.

Lemma upper_eq_iff a b : ascii_upper a = ascii_upper b ↔ same_up_to_case a b.
Proof.
  unfold same_up_to_case. split; intros H.
  - by rewrite <- (lower_upper a), H, lower_upper.
  - by rewrite <- (upper_lower a), H, upper_lower.
Qed.

(** Lowering a letter does not take it out of, or into, the ASCII range. *)
Lemma lower_ascii_range c :
  (nat_of_ascii (lower_ascii c) < 128)%nat ↔ (nat_of_ascii c < 128)%nat.
Proof. destruct c as [[] [] [] [] [] [] [] []]; compute_done. Qed.

Lemma is_ascii_lower s : is_ascii (lower s) ↔ is_ascii s.
Proof.
  unfold is_ascii. induction s as [|c s IH]; simpl; [done|].
  rewrite !Forall_cons, IH, lower_ascii_range. done.
Qed.

(** A string that is an ASCII word up to letter case is ASCII, and
    [upper] takes it to the uppercase of that word. *)
Lemma upper_of_case_variant upper a b :
  upper_on_ascii upper → is_ascii b → same_up_to_case a b →
  upper a = ascii_upper b.
Proof.
  intros Hup Hb Hab. rewrite Hup.
  - by apply upper_eq_iff.
  - apply is_ascii_lower. unfold same_up_to_case in Hab. rewrite Hab.
    by apply is_ascii_lower.
Qed.

Lemma upper_excerpt_on_ascii : upper_on_ascii upper_excerpt.
Proof.
  intros s. unfold is_ascii.
  induction s as [|c s IH]; [done|]. simpl list_ascii_of_string.
  rewrite Forall_cons. intros [Hc Hs]. specialize (IH Hs).
  destruct s as [|c' s']; [done|].
  change (upper_excerpt (String c (String c' s')))
    with (if decide (c = ascii_of_nat 196 ∧ c' = ascii_of_nat 177)
          then String (ascii_of_nat 73) (upper_excerpt s')
          else if decide (c = ascii_of_nat 197 ∧ c' = ascii_of_nat 191)
          then String (ascii_of_nat 83) (upper_excerpt s')
          else String (upper_ascii c) (upper_excerpt (String c' s'))).
  rewrite !decide_False.
  - by rewrite IH.
  - intros [-> _]. vm_compute in Hc. lia.
  - intros [-> _]. vm_compute in Hc. lia.
Qed.

(** What the factory does, by what [upper] makes of the identifier. *)
Lemma factory_by_upper upper broker w :
  (∀ c, upper broker = broker_name c →
        pubsubFactory upper broker w = (Return c, w))
  ∧ ((∀ c, upper broker ≠ broker_name c) →
     pubsubFactory upper broker w
     = (Raise (SystemExit 1),
        log_add (Log FATAL ("Broker type <" +:+ BROKER (os_environ w)
                            +:+ "> not available yet.")) w)).
Proof.
  unfold pubsubFactory. split.
  - intros [] H; rewrite H; cbn [broker_name]; [by rewrite decide_True|].
    rewrite decide_False by discriminate. by rewrite decide_True.
  - intros H. rewrite decide_False by apply (H class_RedisPubsub).
    by rewrite decide_False by apply (H class_GCPPubSub).
Qed.

(** C4, amended. [upper] stands for [str.upper()], of which only its
    action on ASCII strings is assumed. An identifier that is ["redis"] or
    ["gcp-pubsub"] up to the case of its letters gets the matching class
    (the class, not an instance) and the world is untouched. More
    generally the class is returned whenever [broker.upper()] is its
    identifier, which holds of some identifiers beyond ASCII too. Every
    other identifier gets a fatal log line and [exit(1)]: the factory
    raises [SystemExit], it has no error of its own to return. *)
Theorem factory_matches_or_exits :
  ∀ (upper : string → string) (broker : string) (w : World),
    upper_on_ascii upper →
    (same_up_to_case broker "redis" →
       pubsubFactory upper broker w = (Return class_RedisPubsub, w))
    ∧ (same_up_to_case broker "gcp-pubsub" →
       pubsubFactory upper broker w = (Return class_GCPPubSub, w))
    ∧ (∀ c, upper broker = broker_name c →
            pubsubFactory upper broker w = (Return c, w))
    ∧ ((∀ c, upper broker ≠ broker_name c) →
       pubsubFactory upper broker w
       = (Raise (SystemExit 1),
          log_add (Log FATAL ("Broker type <" +:+ BROKER (os_environ w)
                              +:+ "> not available yet.")) w)).
Proof.
  intros upper broker w Hup.
  destruct (factory_by_upper upper broker w) as [Hclass Hexit].
  split_and!; [| |exact Hclass|exact Hexit].
  - intros H. apply (Hclass class_RedisPubsub).
    rewrite (upper_of_case_variant upper broker "redis" Hup); [done| |done].
    compute_done.
  - intros H. apply (Hclass class_GCPPubSub).
    rewrite (upper_of_case_variant upper broker "gcp-pubsub" Hup); [done| |done].
    compute_done.
Qed.

(** Mixed casings of the two identifiers, ["redis"] with a dotless i, and
    an unknown identifier. *)
Lemma factory_matches_or_exits_witness :
  pubsubFactory upper_excerpt "ReDiS" world0 = (Return class_RedisPubsub, world0)
  ∧ pubsubFactory upper_excerpt "Gcp-PubSub" world0
    = (Return class_GCPPubSub, world0)
  ∧ pubsubFactory upper_excerpt redis_dotless world0
    = (Return class_RedisPubsub, world0)
  ∧ pubsubFactory upper_excerpt "kafka" world0
    = (Raise (SystemExit 1),
       log_add (Log FATAL "Broker type <GCP_PUBSUB> not available yet.") world0).
Proof.
  split_and!.
  - apply (proj1 (factory_matches_or_exits upper_excerpt "ReDiS" world0
                    upper_excerpt_on_ascii)).
    reflexivity.
  - apply (proj1 (proj2 (factory_matches_or_exits upper_excerpt "Gcp-PubSub"
                           world0 upper_excerpt_on_ascii))).
    reflexivity.
  - apply (proj1 (proj2 (proj2 (factory_matches_or_exits upper_excerpt
                                  redis_dotless world0 upper_excerpt_on_ascii)))
             class_RedisPubsub).
    reflexivity.
  - apply (proj2 (proj2 (proj2 (factory_matches_or_exits upper_excerpt "kafka"
                                  world0 upper_excerpt_on_ascii)))).
    intros []; discriminate.
Defined.

(** C4 as stated fails: for ["kafka"], an ASCII word that is neither
    identifier in any casing, the factory ends the process instead of
    raising a configuration error. *)
Lemma factory_exits_counterexample :
  fst (pubsubFactory upper_excerpt "kafka" world0) = Raise (SystemExit 1)
  ∧ is_ascii "kafka"
  ∧ ¬ same_up_to_case "kafka" "redis"
  ∧ ¬ same_up_to_case "kafka" "gcp-pubsub".
Proof.
  split_and!.
  - reflexivity.
  - compute_done.
  - compute_done.
  - compute_done.
Qed.

(** ** The codec *)

(** [lia] after turning divisions by constants into their equations. *)
Ltac divlia := zify; Z.to_euclidean_division_equations; lia.

(** Turns the boolean comparisons of the context into propositions. *)
Ltac bool_hyps :=
  repeat match goal with
    | H : (_ && _) = true |- _ => apply andb_prop in H as [? ?]
    | H : negb _ = true |- _ => apply negb_true_iff in H
    | H : (_ && _) = false |- _ => apply andb_false_iff in H as [?|?]
    | H : (_ <? _)%N = true |- _ => apply N.ltb_lt in H
    | H : (_ <? _)%N = false |- _ => apply N.ltb_ge in H
    | H : (_ <=? _)%N = true |- _ => apply N.leb_le in H
    | H : (_ <=? _)%N = false |- _ => apply N.leb_gt in H
    end.

(** Settles the next comparison of the goal by arithmetic. *)
Ltac settle :=
  match goal with
  | |- context [(?a <? ?b)%N] =>
      first [ replace (a <? b)%N with true by (symmetry; apply N.ltb_lt; divlia)
            | replace (a <? b)%N with false by (symmetry; apply N.ltb_ge; divlia) ]
  | |- context [(?a <=? ?b)%N] =>
      first [ replace (a <=? b)%N with true by (symmetry; apply N.leb_le; divlia)
            | replace (a <=? b)%N with false by (symmetry; apply N.leb_gt; divlia) ]
  end.

(** Decoding reads back one encoded code point. *)
Lemma decode_encode_cp c bc rest :
  encode_cp c = Some bc →
  decode_utf8 (bc ++ rest) = cons c <$> decode_utf8 rest.
Proof.
  unfold encode_cp, is_surrogate. intros H.
  repeat match type of H with
         | context [if ?b then _ else _] => destruct b eqn:?
         end; simplify_eq; bool_hyps;
    cbn [app decode_utf8]; unfold is_cont, is_surrogate;
    repeat (settle; cbn [andb negb]);
    (do 2 f_equal; divlia).
Qed.

(** Decoding what [encode] produced gives the text back. *)
Lemma decode_encode_utf8 s b :
  encode_utf8 s = Some b → decode_utf8 b = Some s.
Proof.
  revert b. induction s as [|c s IH]; intros b; simpl.
  - by intros [= <-].
  - destruct (encode_cp c) as [bc|] eqn:Ec; [|done].
    destruct (encode_utf8 s) as [bs|] eqn:Es; [|done].
    intros [= <-]. rewrite (decode_encode_cp _ _ _ Ec). by rewrite (IH bs).
Qed.

(** One step of decoding: the bytes it consumed are the encoding of the
    code point it produced. *)
Lemma decode_utf8_step b s :
  decode_utf8 b = Some s →
  match s with
  | [] => b = []
  | c :: s' =>
      ∃ bc rest, b = bc ++ rest ∧ encode_cp c = Some bc
                 ∧ decode_utf8 rest = Some s' ∧ length rest < length b
  end.
Proof.
  destruct b as [|b0 t0]; [by intros [= <-]|].
  cbn [decode_utf8]. unfold is_cont, is_surrogate.
  repeat match goal with
         | |- context [if ?c then _ else _] => destruct c eqn:?
         | |- context [match ?l with [] => _ | _ :: _ => _ end] => destruct l
         | |- None = Some _ → _ => intros [=]
         end.
  all: destruct (decode_utf8 _) as [s'|] eqn:Hd; simpl; try (by intros [=]).
  all: intros [= <- <-].
  all: bool_hyps.
  all: eexists _, _; split_and!;
    [ shelve
    | unfold encode_cp, is_surrogate; repeat (settle; cbn [andb negb]);
      reflexivity
    | exact Hd
    | simpl; lia ].
  Unshelve.
  all: cbn [app]; repeat f_equal; divlia.
Qed.

(** Encoding what [decode] produced gives the bytes back. *)
Lemma encode_decode_utf8 b s :
  decode_utf8 b = Some s → encode_utf8 s = Some b.
Proof.
  remember (length b) as n eqn:Hn. revert b s Hn.
  induction n as [n IH] using lt_wf_ind. intros b s Hn Hd.
  apply decode_utf8_step in Hd. destruct s as [|c s']; [by subst|].
  destruct Hd as (bc & rest & -> & Hc & Hrest & Hlen).
  simpl. rewrite Hc. by rewrite (IH (length rest) ltac:(lia) rest s' eq_refl Hrest).
Qed.

(** ** Publish, then consume *)

Lemma request_accepted_returns w :
  request_accepted w → ∃ w1, request w = (Return tt, w1).
Proof.
  unfold request_accepted, request.
  destruct (env w) as [|[|e|p|n t] s]; eauto. done.
Qed.

Lemma frame_request_gcp_sent : frame (keeps gcp_sent) request.
Proof. frame_prim. Qed.

Lemma frame_request_redis_sent : frame (keeps redis_sent) request.
Proof. frame_prim. Qed.

Lemma gcp_publish_sends fuel msg b path w :
  wire_bytes msg = Some b →
  opened path w → request_accepted w → path ∈ topics w →
  ∃ w1,
    GCPPubSub_publish (S fuel) msg w = (Return (Some (length (gcp_sent w))), w1)
    ∧ gcp_sent w1 = gcp_sent w ++ [(path, b)].
Proof.
  intros Hb [Hp Ht] Hreq Hin.
  destruct (request_accepted_returns w Hreq) as [w1 Hr].
  assert (grows w w1) as (_&_&Htop&_) by by eapply frame_grows_request.
  pose proof (frame_request_gcp_sent _ _ _ Hr) as Hsent. unfold keeps in Hsent.
  exists (set_gcp_sent (gcp_sent w ++ [(path, b)]) w1). split; [|done].
  apply connexion_return.
  assert (Hpr : publisher_request w = (Return path, w1)).
  { unfold publisher_request. run. by rewrite Hp, Ht, Hr. }
  unfold GCPPubSub_publish_body, str_encode. run. rewrite Hp. cbv beta iota.
  destruct msg as [s|b0]; simpl in Hb; [rewrite Hb|simplify_eq];
    cbv beta iota; rewrite Hpr; cbv beta iota;
    rewrite decide_True by set_solver; by rewrite Hsent.
Qed.

Lemma redis_publish_sends fuel msg b h w :
  wire_bytes msg = Some b →
  r_client (redis_self w) = Some h → request_accepted w →
  ∃ w1,
    RedisPubsub_publish (S fuel) msg w = (Return (Some tt), w1)
    ∧ redis_sent w1
      = redis_sent w ++ [(r_topic (redis_self w), RPayload msg)].
Proof.
  intros Hb Hh Hreq.
  destruct (request_accepted_returns w Hreq) as [w1 Hr].
  pose proof (frame_request_redis_sent _ _ _ Hr) as Hsent. unfold keeps in Hsent.
  exists (set_redis_sent
            (redis_sent w1 ++ [(r_topic (redis_self w), RPayload msg)]) w1).
  split.
  - apply connexion_return.
    unfold RedisPubsub_publish_body, redis_client_publish, redis_encode,
      str_encode. run.
    rewrite Hh, Hr. cbv beta iota.
    destruct msg as [s|b0]; simpl in Hb; [by rewrite Hb|done].
  - simpl. by rewrite Hsent.
Qed.

Lemma redis_exec_callback_body_message callback ev b w :
  ev_type ev = "message" → ev_data ev = DataBytes b →
  RedisPubsub_exec_callback_body callback ev w
  = match decode_utf8 b with
    | Some arg => call callback arg w
    | None => (Raise (Fault UnicodeDecodeError), w)
    end.
Proof.
  intros Hty Hdata. unfold RedisPubsub_exec_callback_body.
  rewrite decide_True by done. rewrite Hdata.
  unfold redis_data_decode, bytes_decode. run.
  by destruct (decode_utf8 b).
Qed.

Lemma call_cb_calls callback arg w :
  cb_calls (snd (call callback arg w)) = cb_calls w ++ [arg].
Proof. unfold call. by destruct (callback _ _). Qed.

(** C5, amended. [b] is what travels for the payload [msg]: its UTF-8
    encoding when it is text, the bytes themselves otherwise. Either
    client publishes exactly that. On the consumer's side the wrapper
    decodes the received bytes before it calls the callback: when [b] is
    valid UTF-8 the callback gets, in both backends, the one text whose
    encoding is [b], byte for byte (the published text itself when the
    payload was text); when [b] is not valid UTF-8 -- only a payload
    given as bytes can be -- decoding raises and the callback is not
    called. *)
Theorem payload_round_trip :
  ∀ (fuel : nat) (callback : Callback) (msg : payload) (b : list N)
    (path : string) (h : redis_handle) (m : gmessage) (ev : event)
    (w w' : World),
    wire_bytes msg = Some b →
    (opened path w → request_accepted w → path ∈ topics w →
     ∃ w1,
       GCPPubSub_publish (S fuel) msg w
       = (Return (Some (length (gcp_sent w))), w1)
       ∧ gcp_sent w1 = gcp_sent w ++ [(path, b)])
    ∧ (r_client (redis_self w) = Some h → request_accepted w →
       ∃ w1,
         RedisPubsub_publish (S fuel) msg w = (Return (Some tt), w1)
         ∧ redis_sent w1
           = redis_sent w ++ [(r_topic (redis_self w), RPayload msg)])
    ∧ (data m = b → ev_type ev = "message" → ev_data ev = DataBytes b →
       match decode_utf8 b with
       | Some arg =>
           encode_utf8 arg = Some b
           ∧ (∀ s, msg = PText s → arg = s)
           ∧ cb_calls (snd (GCPPubSub_exec_callback_body callback m w'))
             = cb_calls w' ++ [arg]
           ∧ cb_calls (snd (RedisPubsub_exec_callback_body callback ev w'))
             = cb_calls w' ++ [arg]
       | None =>
           (∃ raw, msg = PBytes raw)
           ∧ cb_calls (snd (GCPPubSub_exec_callback_body callback m w'))
             = cb_calls w'
           ∧ cb_calls (snd (RedisPubsub_exec_callback_body callback ev w'))
             = cb_calls w'
       end).
Proof.
  intros fuel callback msg b path h m ev w w' Hb. split_and!.
  - intros. by apply gcp_publish_sends.
  - intros. by eapply redis_publish_sends.
  - intros Hm Hty Hdata.
    pose proof (exec_callback_body_cases callback m w') as Hg.
    rewrite (redis_exec_callback_body_message callback ev b w' Hty Hdata).
    rewrite Hm in Hg.
    destruct (decode_utf8 b) as [arg|] eqn:Hd.
    + split_and!.
      * by apply encode_decode_utf8.
      * intros s ->. simpl in Hb. apply decode_encode_utf8 in Hb. congruence.
      * simpl in Hg. by destruct (callback (cb_calls w') arg) as [[| |]|]; rewrite Hg.
      * apply call_cb_calls.
    + split_and!.
      * destruct msg as [s|raw]; [|by eexists].
        simpl in Hb. apply decode_encode_utf8 in Hb. congruence.
      * by rewrite Hg.
      * done.
Qed.

(** The text ["h\u00e9\u20ac"] followed by U+1F600: one, two, three and four
    bytes per code point. *)
Lemma payload_round_trip_witness :
  let msg := PText [104; 233; 8364; 128512]%N in
  let b := [104; 195; 169; 226; 130; 172; 240; 159; 152; 128]%N in
  let m := {| data := b; ack_id := 0 |} in
  let ev := {| ev_type := "message"; ev_pattern := None; ev_channel := "t";
               ev_data := DataBytes b |} in
  (∃ w1,
     GCPPubSub_publish 1 msg world_open
     = (Return (Some (length (gcp_sent world_open))), w1)
     ∧ gcp_sent w1
       = gcp_sent world_open ++ [("projects/demo/topics/t", b)])
  ∧ (∃ w1,
       RedisPubsub_publish 1 msg world_open = (Return (Some tt), w1)
       ∧ redis_sent w1
         = redis_sent world_open
           ++ [(r_topic (redis_self world_open), RPayload msg)])
  ∧ match decode_utf8 b with
    | Some arg =>
        encode_utf8 arg = Some b
        ∧ (∀ s, msg = PText s → arg = s)
        ∧ cb_calls (snd (GCPPubSub_exec_callback_body accepting m world_open))
          = cb_calls world_open ++ [arg]
        ∧ cb_calls (snd (RedisPubsub_exec_callback_body accepting ev world_open))
          = cb_calls world_open ++ [arg]
    | None =>
        (∃ raw, msg = PBytes raw)
        ∧ cb_calls (snd (GCPPubSub_exec_callback_body accepting m world_open))
          = cb_calls world_open
        ∧ cb_calls (snd (RedisPubsub_exec_callback_body accepting ev world_open))
          = cb_calls world_open
    end.
Proof.
  intros msg b m ev.
  pose proof (payload_round_trip 0 accepting msg b "projects/demo/topics/t"
                (redis_Redis redis_env0) m ev world_open world_open eq_refl)
    as (Hg & Hr & Hd).
  split_and!.
  - apply Hg; [split; reflexivity|vm_compute; exact I|compute_done].
  - apply Hr; [reflexivity|vm_compute; exact I].
  - apply Hd; reflexivity.
Defined.

(** C5 as stated fails: the one-byte payload [0xFF] is published as it
    is, but it is not valid UTF-8; on reception [decode()] raises in both
    backends and nothing at all is handed to the callback. *)
Lemma invalid_utf8_not_delivered_counterexample :
  let b := [255]%N in
  let w1 := snd (GCPPubSub_publish 1 (PBytes b) world_open) in
  let m := {| data := b; ack_id := 0 |} in
  let ev := {| ev_type := "message"; ev_pattern := None; ev_channel := "t";
               ev_data := DataBytes b |} in
  fst (GCPPubSub_publish 1 (PBytes b) world_open) = Return (Some 0)
  ∧ gcp_sent w1 = [("projects/demo/topics/t", b)]
  ∧ fst (GCPPubSub_exec_callback_body accepting m w1)
    = Raise (Fault MessageProcessingException)
  ∧ cb_calls (snd (GCPPubSub_exec_callback_body accepting m w1)) = []
  ∧ fst (RedisPubsub_exec_callback_body accepting ev w1)
    = Raise (Fault UnicodeDecodeError)
  ∧ cb_calls (snd (RedisPubsub_exec_callback_body accepting ev w1)) = [].
Proof. vm_compute. repeat split; reflexivity. Qed.

(** * Further properties of the clients *)

(** ** [RedisPubsub.open], [close] and the scoped use *)

Lemma open_body_run w :
  RedisPubsub_open_body w =
    match request (pinging w) with
    | (Return _, w1) => (Return tt, log_add (Log INFO "ready.") w1)
    | (Raise e, w1) => (Raise e, w1)
    | (OutOfFuel, w1) => (OutOfFuel, w1)
    end.
Proof.
  unfold RedisPubsub_open_body, pinging. run. cbv beta iota.
  by destruct (request _) as [[[]|e|] w1].
Qed.

Lemma frame_request_redis_self : frame (keeps redis_self) request.
Proof. frame_prim. Qed.

Lemma frame_request_backoffs : frame (keeps backoffs) request.
Proof. frame_prim. Qed.

Lemma request_injected f s w :
  env w = Inject (Fault f) :: s → request w = (Raise (Fault f), set_env s w).
Proof. unfold request. by intros ->. Qed.

(** X1. [RedisPubsub.open] through transient connection faults: when the
    ping fails with [socket.gaierror] or [redis.exceptions.ConnectionError]
    a number of times and then goes through, and the bound on attempts
    exceeds that number, [open] returns; it slept one backoff per failed
    ping, the client holds a fresh handle built from its configuration,
    and nothing was published. *)
Theorem redis_open_connects_after_transient_faults :
  ∀ (fs : list fault) (fuel : nat) (w : World),
    failing_then_accepting fs w →
    Forall (λ f, f ∈ redis_expected) fs →
    length fs < fuel →
    ∃ w1,
      RedisPubsub_open fuel w = (Return (Some tt), w1)
      ∧ r_client (redis_self w1) = Some (redis_Redis (r_env (redis_self w)))
      ∧ backoffs w1 = backoffs w + length fs
      ∧ redis_sent w1 = redis_sent w.
Proof.
  induction fs as [|f fs IH]; intros fuel w (rest & Henv & Hrest) Hfs Hlen;
    (destruct fuel as [|fuel]; [simpl in Hlen; lia|]); unfold RedisPubsub_open.
  - simpl in Henv.
    assert (request_accepted (pinging w)) as Hacc.
    { unfold request_accepted. simpl. rewrite Henv. by destruct rest as [|[]]. }
    destruct (request_accepted_returns _ Hacc) as [w1 Hr].
    exists (log_add (Log INFO "ready.") w1). split.
    + apply connexion_return. by rewrite open_body_run, Hr.
    + pose proof (frame_request_redis_self _ _ _ Hr) as Hs.
      pose proof (frame_request_backoffs _ _ _ Hr) as Hb.
      pose proof (frame_request_redis_sent _ _ _ Hr) as Hsent.
      unfold keeps in *. simpl in *. rewrite Hs, Hb, Hsent. split_and!; [done|lia|done].
  - inversion Hfs as [|? ? Hf Hfs']; subst.
    rewrite (connexion_expected _ _ _ _ w f (set_env (map (λ f, Inject (Fault f)) fs ++ rest) (pinging w)));
      [|rewrite open_body_run, (request_injected f (map (λ f, Inject (Fault f)) fs ++ rest)); [done|by simpl; rewrite Henv]
       |apply not_elem_of_nil|done].
    match goal with
    | |- context [connexion fuel _ _ _ ?w'] =>
        destruct (IH fuel w') as (w1 & Hrun & Hc & Hb & Hsent);
        [by exists rest|done|simpl in Hlen; lia|]
    end.
    exists w1. split; [exact Hrun|]. simpl in *. split_and!; [done|lia|done].
Qed.

(** Two failed pings, then a good one. *)
Lemma redis_open_connects_after_transient_faults_witness :
  let w := set_env [Inject (Fault ConnectionError); Inject (Fault gaierror); Quiet]
             world0 in
  ∃ w1,
    RedisPubsub_open 3 w = (Return (Some tt), w1)
    ∧ r_client (redis_self w1) = Some (redis_Redis (r_env (redis_self w)))
    ∧ backoffs w1 = backoffs w + length [ConnectionError; gaierror]
    ∧ redis_sent w1 = redis_sent w.
Proof.
  intros w.
  apply (redis_open_connects_after_transient_faults
           [ConnectionError; gaierror] 3 w).
  - exists [Quiet]. split; [reflexivity|exact I].
  - compute_done.
  - simpl. lia.
Defined.

(** After at least one attempt, and however it ends, [open] has put a
    fresh handle in place. *)
Lemma open_sets_client fuel w r w1 :
  RedisPubsub_open (S fuel) w = (r, w1) →
  redis_self w1
  = set_r_client (Some (redis_Redis (r_env (redis_self w)))) (redis_self w).
Proof.
  unfold RedisPubsub_open. revert w.
  induction fuel as [|fuel IH]; intros w; rewrite connexion_unfold, open_body_run;
    destruct (request (pinging w)) as [[[]|[f| |c]|] w2] eqn:Hr;
    pose proof (frame_request_redis_self _ _ _ Hr) as Hs; unfold keeps in Hs;
    simpl in Hs.
  all: try (intros H; simplify_eq; simpl; by rewrite Hs).
  all: rewrite (decide_False (P := _ ∈ [])) by apply not_elem_of_nil;
    destruct (decide (f ∈ redis_expected));
    try (intros H; simplify_eq; simpl; by rewrite Hs).
  - simpl. intros H; simplify_eq; simpl; by rewrite Hs.
  - intros Hrun. apply IH in Hrun. rewrite Hrun. simpl. rewrite Hs. simpl.
    reflexivity.
Qed.

(** X2. [with RedisPubsub(...) as p: block]. When [open] returned and the
    block left [_client] in place (it may set other attributes, as
    [consume] sets [_pubsub]), the statement ends as the block ended --
    it returns what the block returned, or raises what the block
    raised -- after [close] released the handle and logged
    ["terminated."]. When [open] raised, the statement raises the same,
    the block was not entered and [close] was not called: the handle
    that [open] had put in place is never released. *)
Theorem redis_with_block_releases_handle :
  ∀ (A : Type) (fuel : nat) (block : M A) (w : World),
    let h := redis_Redis (r_env (redis_self w)) in
    (∀ w1 r w2,
        RedisPubsub_open (S fuel) w = (Return (Some tt), w1) →
        block w1 = (r, w2) →
        r_client (redis_self w2) = r_client (redis_self w1) →
        r ≠ OutOfFuel →
        with_RedisPubsub (S fuel) block w
        = (r, log_add (Log DEBUG "terminated.")
                (set_redis_self (set_r_client (Some (release h)) (redis_self w2))
                   w2)))
    ∧ (∀ e w1,
        RedisPubsub_open (S fuel) w = (Raise e, w1) →
        with_RedisPubsub (S fuel) block w = (Raise e, w1)
        ∧ r_client (redis_self w1) = Some h
        ∧ h_released h = false).
Proof.
  intros A fuel block w h. split.
  - intros w1 r w2 Hopen Hblock Hself Hr.
    pose proof (open_sets_client _ _ _ _ Hopen) as Hc.
    assert (r_client (redis_self w2) = Some h) as Hh by by rewrite Hself, Hc.
    unfold with_RedisPubsub, with_Pubsub. rewrite Hopen, Hblock.
    rewrite (redis_close_after_open_returns h w2 Hh).
    by destruct r.
  - intros e w1 Hopen. split_and!; [|by rewrite (open_sets_client _ _ _ _ Hopen)|done].
    unfold with_RedisPubsub, with_Pubsub. by rewrite Hopen.
Qed.

(** A block that consumes a stream of one message; it sets [_pubsub]. *)
Lemma redis_with_block_releases_handle_witness :
  let w := set_redis_stream [Event subscribed_event; Event hello_event] world0 in
  let h := redis_Redis redis_env0 in
  let w1 := snd (RedisPubsub_open 1 w) in
  let w2 := snd (RedisPubsub_consume 1 accepting None w1) in
  r_pubsub (redis_self w2) ≠ r_pubsub (redis_self w1)
  ∧ with_RedisPubsub 1 (RedisPubsub_consume 1 accepting None) w
    = (Return (Some tt),
       log_add (Log DEBUG "terminated.")
         (set_redis_self (set_r_client (Some (release h)) (redis_self w2)) w2)).
Proof.
  intros w h w1 w2. split; [discriminate|].
  apply (proj1 (redis_with_block_releases_handle (option unit) 0
                  (RedisPubsub_consume 1 accepting None) w) w1
           (Return (Some tt)) w2).
  - vm_compute. reflexivity.
  - vm_compute. reflexivity.
  - vm_compute. reflexivity.
  - discriminate.
Defined.

(** ** Calls on a client that was not opened *)

(** X3. [RedisPubsub.publish] and [RedisPubsub.consume] on a client whose
    [_client] is still [None]: both raise [AttributeError]; the wrapper
    logs it and raises it again, and no request reaches the broker (the
    environment and the event stream are as they were). *)
Theorem redis_unopened_client_raises :
  ∀ (fuel : nat) (msg : payload) (callback : Callback)
    (deadLetter : option string) (w : World),
    r_client (redis_self w) = None →
    RedisPubsub_publish (S fuel) msg w
    = (Raise (Fault AttributeError),
       log_add (LogRaised ERROR (Fault AttributeError)) w)
    ∧ RedisPubsub_consume (S fuel) callback deadLetter w
      = (Raise (Fault AttributeError),
         log_add (LogRaised ERROR (Fault AttributeError))
           (log_add (Log DEBUG "consuming ..") w)).
Proof.
  intros fuel msg callback deadLetter w Hnone. split.
  - apply connexion_unclassified; [|apply not_elem_of_nil|compute_done].
    unfold RedisPubsub_publish_body, redis_client_publish. run. by rewrite Hnone.
  - apply connexion_unclassified; [|apply not_elem_of_nil|compute_done].
    unfold RedisPubsub_consume_body, RedisPubsub_subscribe. run. simpl.
    by rewrite Hnone.
Qed.

Lemma redis_unopened_client_raises_witness :
  RedisPubsub_publish 1 (PText hello) world0
  = (Raise (Fault AttributeError),
     log_add (LogRaised ERROR (Fault AttributeError)) world0)
  ∧ RedisPubsub_consume 1 accepting None world0
    = (Raise (Fault AttributeError),
       log_add (LogRaised ERROR (Fault AttributeError))
         (log_add (Log DEBUG "consuming ..") world0)).
Proof.
  apply (redis_unopened_client_raises 0 (PText hello) accepting None world0).
  reflexivity.
Defined.

(** ** The event loop of [RedisPubsub.consume], further *)

(** With a callback that returns, one turn of the loop hands the payload
    of a message to the callback and changes nothing else. *)
Lemma on_event_accepted fuel callback deadLetter ev w :
  decodable ev →
  (∀ history arg, callback history arg = None) →
  ∃ w1,
    RedisPubsub_on_event (S fuel) callback deadLetter ev w = (Return tt, w1)
    ∧ cb_calls w1 = cb_calls w ++ payloads [ev]
    ∧ redis_sent w1 = redis_sent w
    ∧ env w1 = env w
    ∧ logs w1 = logs w.
Proof.
  intros Hdec Hcb. unfold payloads. simpl.
  destruct (decide (ev_type ev = "message")) as [Hty|Hty].
  - destruct (Hdec Hty) as [t Ht]. rewrite Ht. simpl.
    exists (set_cb_calls (cb_calls w ++ [t]) w). split; [|done].
    assert (RedisPubsub_exec_callback (S fuel) callback ev w
            = (Return (Some tt), set_cb_calls (cb_calls w ++ [t]) w)) as Hexec.
    { apply connexion_return. unfold event_payload in Ht.
      rewrite decide_True in Ht by done.
      destruct (ev_data ev) as [b|n] eqn:Hdata; [|done].
      rewrite (redis_exec_callback_body_message callback ev b w Hty Hdata), Ht.
      unfold call. by rewrite Hcb. }
    unfold RedisPubsub_on_event. run. by rewrite Hexec.
  - unfold event_payload. rewrite decide_False by done. simpl.
    exists w. rewrite app_nil_r. split; [|done].
    unfold RedisPubsub_on_event. run. by rewrite exec_callback_skips.
Qed.

Lemma listen_loop_accepted fuel callback deadLetter evs w :
  Forall decodable evs →
  (∀ history arg, callback history arg = None) →
  ∃ w1,
    listen_loop (RedisPubsub_on_event (S fuel) callback deadLetter)
      (map Event evs) w
    = (Return tt, w1, [])
    ∧ cb_calls w1 = cb_calls w ++ payloads evs
    ∧ redis_sent w1 = redis_sent w
    ∧ env w1 = env w
    ∧ logs w1 = logs w.
Proof.
  intros Hdec Hcb. revert w.
  induction Hdec as [|ev evs Hev Hevs IH]; intros w.
  - exists w. by rewrite app_nil_r.
  - destruct (on_event_accepted fuel callback deadLetter ev w Hev Hcb)
      as (w1 & Hrun & Hc1 & Hs1 & He1 & Hl1).
    destruct (IH w1) as (w2 & Hloop & Hc2 & Hs2 & He2 & Hl2).
    exists w2. simpl. rewrite Hrun. split; [exact Hloop|].
    split_and!; [|congruence..].
    rewrite Hc2, Hc1. unfold payloads. simpl.
    destruct (event_payload ev); simpl; by rewrite <- ?app_assoc, ?app_nil_r.
Qed.

(** X4. [RedisPubsub.consume] over a stream of events that it can decode,
    with a callback that returns: the callback is called once for each
    event of type ["message"], in the order of arrival, with the decoded
    payload, and for no other event; nothing is published, nothing is
    logged, and when the stream ends [consume] returns. *)
Theorem redis_consume_dispatches_in_order :
  ∀ (fuel : nat) (callback : Callback) (deadLetter : option string)
    (evs : list event) (w0 w : World),
    RedisPubsub_subscribe w0 = (Return tt, w) →
    redis_stream w = map Event evs →
    Forall decodable evs →
    (∀ history arg, callback history arg = None) →
    ∃ w1,
      RedisPubsub_consume (S fuel) callback deadLetter w0
      = (Return (Some tt), w1)
      ∧ cb_calls w1 = cb_calls w ++ payloads evs
      ∧ redis_sent w1 = redis_sent w
      ∧ redis_stream w1 = []
      ∧ logs w1 = logs w.
Proof.
  intros fuel callback deadLetter evs w0 w Hsub Hstream Hdec Hcb.
  destruct (listen_loop_accepted fuel callback deadLetter evs w Hdec Hcb)
    as (w1 & Hloop & Hc & Hs & _ & Hl).
  exists (set_redis_stream [] w1). split; [|done].
  apply connexion_return. rewrite (consume_unfold _ _ _ _ _ Hsub).
  unfold RedisPubsub_event_loop, try_except, for_listen.
  by rewrite Hstream, Hloop.
Qed.

(** Two messages between two confirmations. *)
Lemma redis_consume_dispatches_in_order_witness :
  let evs := [subscribed_event; hello_event; subscribed_event; hello_event] in
  let w0 := set_redis_stream (map Event evs) world_open in
  let w := snd (RedisPubsub_subscribe w0) in
  ∃ w1,
    RedisPubsub_consume 1 accepting (Some "dead") w0 = (Return (Some tt), w1)
    ∧ cb_calls w1 = cb_calls w ++ payloads evs
    ∧ redis_sent w1 = redis_sent w
    ∧ redis_stream w1 = []
    ∧ logs w1 = logs w.
Proof.
  intros evs w0 w.
  apply (redis_consume_dispatches_in_order 0 accepting (Some "dead") evs w0 w).
  - vm_compute. reflexivity.
  - vm_compute. reflexivity.
  - unfold evs. repeat constructor; intros Hty; vm_compute in Hty |- *;
      first [discriminate | by eexists].
  - reflexivity.
Defined.

(** A message that cannot be decoded: the body of [exec_callback] raises
    before it reaches the callback. *)
Lemma exec_callback_body_undecodable callback ev w :
  ev_type ev = "message" → event_payload ev = None →
  ∃ f, RedisPubsub_exec_callback_body callback ev w = (Raise (Fault f), w)
       ∧ (f = UnicodeDecodeError ∨ f = AttributeError).
Proof.
  intros Hty Hnone. unfold event_payload in Hnone.
  rewrite decide_True in Hnone by done.
  unfold RedisPubsub_exec_callback_body. rewrite decide_True by done.
  unfold redis_data_decode, bytes_decode. run.
  destruct (ev_data ev) as [b|n]; [rewrite Hnone|]; eauto.
Qed.

Lemma truthy_Some deadLetter topic :
  truthy deadLetter = Some topic →
  deadLetter = Some topic ∧ topic ≠ EmptyString.
Proof.
  destruct deadLetter as [x|]; simpl; [|done].
  destruct (decide (x = EmptyString)); [done|]. by intros [= <-].
Qed.

(** X5. A message whose payload cannot be decoded (bytes that are not
    UTF-8, or no bytes at all) fails in [exec_callback] before the
    callback is called, and ends [consume]: the callback was not called,
    the later events stay in the stream and nothing is published.
    Without a dead-letter topic [consume] raises the decoding fault. With
    one, and a broker that can be reached, the handler tries to publish
    the event, a dict, which the redis library refuses: [consume] raises
    [DataError] in place of the decoding fault. *)
Theorem redis_undecodable_message_ends_consume :
  ∀ (fuel : nat) (callback : Callback) (deadLetter : option string)
    (w0 w w' : World) (pre rest : list stream_item) (ev : event),
    RedisPubsub_subscribe w0 = (Return tt, w) →
    redis_stream w = pre ++ Event ev :: rest →
    listen_loop (RedisPubsub_on_event (S fuel) callback deadLetter) pre w
    = (Return tt, w', []) →
    ev_type ev = "message" → event_payload ev = None →
    request_accepted w' →
    ∃ f w1,
      (f = UnicodeDecodeError ∨ f = AttributeError)
      ∧ RedisPubsub_consume (S fuel) callback deadLetter w0
        = (Raise (Fault match truthy deadLetter with
                        | Some _ => DataError
                        | None => f
                        end), w1)
      ∧ redis_sent w1 = redis_sent w'
      ∧ cb_calls w1 = cb_calls w'
      ∧ redis_stream w1 = rest.
Proof.
  intros fuel callback deadLetter w0 w w' pre rest ev
    Hsub Hstream Hpre Hty Hnone Hreq.
  destruct (listen_loop_client _ _ _ _ _ _ _ Hsub Hpre) as [h Hh].
  destruct (exec_callback_body_undecodable callback ev w' Hty Hnone)
    as (f & Hbody & Hf).
  assert (f ∉ redis_expected) as Hex by (destruct Hf as [-> | ->]; compute_done).
  exists f. destruct (truthy deadLetter) as [topic|] eqn:Htruthy.
  - destruct (truthy_Some _ _ Htruthy) as [-> Htopic].
    destruct (on_event_dead_letter_refused fuel callback topic ev f h w' w'
                Hbody Hex Htopic Hh Hreq)
      as (w1 & Hev & Hsent & Hcalls & _ & _).
    eexists. split; [done|]. split.
    + apply (consume_event_raises _ _ _ _ _ _ _ _ _ _ _ Hsub Hstream Hpre Hev).
      compute_done.
    + done.
  - pose proof (on_event_no_dead_letter fuel callback deadLetter ev f w' w'
                  Hbody Hex Htruthy) as Hev.
    eexists. split; [done|]. split.
    + by apply (consume_event_raises _ _ _ _ _ _ _ _ _ _ _ Hsub Hstream Hpre Hev).
    + done.
Qed.

(** The payload [0xFF], with the dead-letter topic ["dead"] and without
    one. *)
Lemma redis_undecodable_message_ends_consume_witness :
  let bad := {| ev_type := "message"; ev_pattern := None; ev_channel := "t";
                ev_data := DataBytes [255%N] |} in
  let w0 := set_redis_stream [Event subscribed_event; Event bad; Event hello_event]
              world_open in
  let w := snd (RedisPubsub_subscribe w0) in
  (∃ f w1,
     (f = UnicodeDecodeError ∨ f = AttributeError)
     ∧ RedisPubsub_consume 1 accepting (Some "dead") w0
       = (Raise (Fault DataError), w1)
     ∧ redis_sent w1 = redis_sent w
     ∧ cb_calls w1 = cb_calls w
     ∧ redis_stream w1 = [Event hello_event])
  ∧ (∃ f w1,
       (f = UnicodeDecodeError ∨ f = AttributeError)
       ∧ RedisPubsub_consume 1 accepting None w0 = (Raise (Fault f), w1)
       ∧ redis_sent w1 = redis_sent w
       ∧ cb_calls w1 = cb_calls w
       ∧ redis_stream w1 = [Event hello_event]).
Proof.
  intros bad w0 w. split.
  - apply (redis_undecodable_message_ends_consume 0 accepting (Some "dead")
             w0 w w [Event subscribed_event] [Event hello_event] bad).
    + vm_compute. reflexivity.
    + vm_compute. reflexivity.
    + vm_compute. reflexivity.
    + reflexivity.
    + vm_compute. reflexivity.
    + vm_compute. exact I.
  - apply (redis_undecodable_message_ends_consume 0 accepting None
             w0 w w [Event subscribed_event] [Event hello_event] bad).
    + vm_compute. reflexivity.
    + vm_compute. reflexivity.
    + vm_compute. reflexivity.
    + reflexivity.
    + vm_compute. reflexivity.
    + vm_compute. exact I.
Defined.

(** X6. A fault that [listen()] itself raises, and that is not one of the
    expected networking errors, is raised outside the inner [try]: it
    leaves [consume] at once, logged by the wrapper, and nothing is
    published to the dead-letter topic, whether one was given or not. *)
Theorem redis_stream_fault_not_dead_lettered :
  ∀ (fuel : nat) (callback : Callback) (deadLetter : option string)
    (w0 w w' : World) (pre rest : list stream_item) (f : fault),
    RedisPubsub_subscribe w0 = (Return tt, w) →
    redis_stream w = pre ++ Signal (Fault f) :: rest →
    listen_loop (RedisPubsub_on_event (S fuel) callback deadLetter) pre w
    = (Return tt, w', []) →
    f ∉ redis_expected →
    RedisPubsub_consume (S fuel) callback deadLetter w0
    = (Raise (Fault f),
       log_add (LogRaised ERROR (Fault f)) (set_redis_stream rest w')).
Proof.
  intros fuel callback deadLetter w0 w w' pre rest f Hsub Hstream Hpre Hex.
  apply connexion_unclassified; [|apply not_elem_of_nil|done].
  rewrite (consume_unfold _ _ _ _ _ Hsub).
  unfold RedisPubsub_event_loop, try_except.
  by rewrite (for_listen_split _ _ _ _ _ _ Hstream Hpre).
Qed.

(** A [TimeoutError] of the stream. *)
Lemma redis_stream_fault_not_dead_lettered_witness :
  let w0 := set_redis_stream
              [Event subscribed_event; Signal (Fault TimeoutError);
               Event hello_event] world_open in
  let w := snd (RedisPubsub_subscribe w0) in
  RedisPubsub_consume 1 accepting (Some "dead") w0
  = (Raise (Fault TimeoutError),
     log_add (LogRaised ERROR (Fault TimeoutError))
       (set_redis_stream [Event hello_event] w)).
Proof.
  intros w0 w.
  apply (redis_stream_fault_not_dead_lettered 0 accepting (Some "dead") w0 w w
           [Event subscribed_event] [Event hello_event] TimeoutError).
  - vm_compute. reflexivity.
  - vm_compute. reflexivity.
  - vm_compute. reflexivity.
  - compute_done.
Defined.

(** ** What [RedisPubsub.consume] publishes *)

#[global] Instance only_dead_letters_preorder deadLetter :
  PreOrder (only_dead_letters deadLetter).
Proof.
  split.
  - intros w. exists []. by rewrite app_nil_r.
  - intros w1 w2 w3 (x1 & H1 & F1) (x2 & H2 & F2). exists (x1 ++ x2).
    split; [by rewrite H2, H1, app_assoc|by apply Forall_app].
Qed.

Lemma keeps_only_dead_letters deadLetter w w1 :
  redis_sent w1 = redis_sent w → only_dead_letters deadLetter w w1.
Proof. intros H. exists []. by rewrite app_nil_r. Qed.

Lemma frame_only_dead_letters_request deadLetter :
  frame (only_dead_letters deadLetter) request.
Proof.
  intros w r w1 H. apply keeps_only_dead_letters.
  by apply frame_request_redis_sent in H.
Qed.

Lemma frame_for_listen (R : relation World) `{!PreOrder R} body :
  (∀ x w, R w (set_redis_stream x w)) →
  (∀ ev, frame R (body ev)) → frame R (for_listen body).
Proof.
  intros Hset Hbody w r w1. unfold for_listen.
  destruct (listen_loop body (redis_stream w) w) as [[r' w2] rest] eqn:E.
  intros [= <- <-]. etrans; [by eapply frame_listen_loop|apply Hset].
Qed.

Lemma frame_exec_callback_body_sent callback ev :
  frame (keeps redis_sent) (RedisPubsub_exec_callback_body callback ev).
Proof.
  unfold RedisPubsub_exec_callback_body, redis_data_decode, bytes_decode.
  frame_auto.
Qed.


Lemma frame_subscribe_sent : frame (keeps redis_sent) RedisPubsub_subscribe.
Proof. unfold RedisPubsub_subscribe. frame_auto. Qed.



(** ** [GCPPubSub.open], [publish] and the scoped use *)

Lemma calm_request_accepted w : calm w → request_accepted w.
Proof.
  unfold calm, request_accepted. destruct (env w) as [|[|e|p|n t] s]; try done.
  by inversion 1.
Qed.

Lemma frame_check_topic_gcp_sent fuel :
  frame (keeps gcp_sent) (GCPPubSub_check_topic fuel).
Proof. apply frame_check_topic; keeps_side. Qed.

(** In an environment that fails no request [open] goes through. *)
Lemma open_calm fuel w :
  calm w →
  let path := topic_path (GOOGLE_PROJECT (g_env (gcp_self w)))
                (g_topic (gcp_self w)) in
  ∃ w1,
    GCPPubSub_open (S fuel) w = (Return tt, w1)
    ∧ opened path w1
    ∧ path ∈ topics w1
    ∧ calm w1
    ∧ gcp_sent w1 = gcp_sent w.
Proof.
  intros Hc path.
  set (wo := set_gcp_self (set_g_opened path (gcp_self w)) w).
  assert (opened path wo) as Ho by done.
  destruct (check_topic_calm fuel path wo Ho Hc) as (r & w1 & Hct & Hin).
  pose proof (frame_grows_check_topic _ _ _ _ Hct) as Hg.
  pose proof (frame_check_topic_gcp_sent _ _ _ _ Hct) as Hs.
  exists (log_add (Log INFO "ready.") w1). split.
  - unfold GCPPubSub_open. run. cbv beta iota. fold path. fold wo. by rewrite Hct.
  - split_and!; [by eapply opened_grows|done|by eapply (calm_grows wo)|done].
Qed.

(** X8. [GCPPubSub.open] in an environment that fails no request: it
    returns, the client then holds a publisher and the path
    [projects/<project>/topics/<topic>] of its topic, the topic exists on
    the service (it was there, another client made it, or [open] created
    it), and nothing was published. *)
Theorem gcp_open_provisions_topic :
  ∀ (fuel : nat) (w : World),
    calm w →
    let path := topic_path (GOOGLE_PROJECT (g_env (gcp_self w)))
                  (g_topic (gcp_self w)) in
    ∃ w1,
      GCPPubSub_open (S fuel) w = (Return tt, w1)
      ∧ opened path w1
      ∧ path ∈ topics w1
      ∧ calm w1
      ∧ gcp_sent w1 = gcp_sent w.
Proof.
  intros fuel w Hc path.
  set (wo := set_gcp_self (set_g_opened path (gcp_self w)) w).
  assert (opened path wo) as Ho by done.
  destruct (check_topic_calm fuel path wo Ho Hc) as (r & w1 & Hct & Hin).
  pose proof (frame_grows_check_topic _ _ _ _ Hct) as Hg.
  pose proof (frame_check_topic_gcp_sent _ _ _ _ Hct) as Hs.
  exists (log_add (Log INFO "ready.") w1). split_and!.
  - unfold GCPPubSub_open. run. cbv beta iota. fold path. fold wo. by rewrite Hct.
  - by eapply opened_grows.
  - done.
  - by eapply (calm_grows wo).
  - done.
Qed.

Lemma gcp_open_provisions_topic_witness :
  let w := set_env [OtherCreatesTopic "projects/demo/topics/t"] world0 in
  let path := topic_path (GOOGLE_PROJECT (g_env (gcp_self w)))
                (g_topic (gcp_self w)) in
  ∃ w1,
    GCPPubSub_open 1 w = (Return tt, w1)
    ∧ opened path w1
    ∧ path ∈ topics w1
    ∧ calm w1
    ∧ gcp_sent w1 = gcp_sent w.
Proof.
  intros w. apply (gcp_open_provisions_topic 0 w). compute_done.
Defined.

(** X9. [with GCPPubSub(topic) as p: p.publish(msg)] on a client that was
    not opened by hand, in an environment that fails no request:
    [__enter__] opens the client, the payload reaches the topic of the
    client as its bytes (a text encoded, bytes as they are) and as the one
    new message, the call gives the result of the publish future, and
    [__exit__] runs [close], whose ["terminated."] is the last log
    line. *)
Theorem gcp_with_block_publishes :
  ∀ (fuel : nat) (msg : payload) (b : list N) (w : World),
    calm w → wire_bytes msg = Some b →
    let path := topic_path (GOOGLE_PROJECT (g_env (gcp_self w)))
                  (g_topic (gcp_self w)) in
    ∃ w1,
      with_GCPPubSub (S fuel) (GCPPubSub_publish (S fuel) msg) w
      = (Return (Some (length (gcp_sent w))), w1)
      ∧ gcp_sent w1 = gcp_sent w ++ [(path, b)]
      ∧ List.last (logs w1) (Log DEBUG EmptyString) = Log DEBUG "terminated.".
Proof.
  intros fuel msg b w Hc Hb path.
  destruct (open_calm fuel w Hc) as (w1 & Hopen & Ho & Hin & Hc1 & Hs1).
  destruct (gcp_publish_sends fuel msg b path w1 Hb Ho
              (calm_request_accepted _ Hc1) Hin) as (w2 & Hpub & Hs2).
  exists (log_add (Log DEBUG "terminated.") w2). split_and!.
  - unfold with_GCPPubSub, with_Pubsub. rewrite Hopen, Hpub. simpl.
    by rewrite Hs1.
  - simpl. by rewrite Hs2, Hs1.
  - simpl. apply last_last.
Qed.

Lemma gcp_with_block_publishes_witness :
  let w := world0 in
  let path := topic_path (GOOGLE_PROJECT (g_env (gcp_self w)))
                (g_topic (gcp_self w)) in
  ∃ w1,
    with_GCPPubSub 1 (GCPPubSub_publish 1 (PText hello)) w
    = (Return (Some (length (gcp_sent w))), w1)
    ∧ gcp_sent w1 = gcp_sent w ++ [(path, hello)]
    ∧ List.last (logs w1) (Log DEBUG EmptyString) = Log DEBUG "terminated.".
Proof.
  intros w.
  apply (gcp_with_block_publishes 0 (PText hello) hello w).
  - compute_done.
  - reflexivity.
Defined.

(** ** Calls on a cloud client that was not opened, and other edges *)

(** X10. A cloud client that was constructed but not opened has no
    publisher ([_publisher_client] is [None]): [publish], [check_topic]
    and [consume] raise [AttributeError], a fault neither decorator
    expects, so there is no retry. [consume] fails in the topic check that
    [check_subscription] starts with: no request was made, no session was
    opened, the registry is as it was, and the subscriber of the [with]
    block was closed on the way out. *)
Theorem gcp_unopened_client_raises :
  ∀ (fuel : nat) (msg : payload) (w : World),
    g_publisher_client (gcp_self w) = None →
    GCPPubSub_publish (S fuel) msg w
    = (Raise (Fault AttributeError),
       log_add (LogRaised ERROR (Fault AttributeError)) w)
    ∧ GCPPubSub_check_topic (S fuel) w
      = (Raise (Fault AttributeError),
         log_add (LogRaised ERROR (Fault AttributeError))
           (log_add (Log DEBUG ("checking  .. topic="
                                +:+ show (g_topic_path (gcp_self w)))) w))
    ∧ ∀ callback subscription deadLetter project,
        os_environ w !! "GOOGLE_PROJECT" = Some project →
        ∃ w1,
          GCPPubSub_consume (S fuel) callback subscription deadLetter w
          = (Raise (Fault AttributeError), w1)
          ∧ env w1 = env w ∧ sessions w1 = sessions w
          ∧ topics w1 = topics w ∧ subscriptions w1 = subscriptions w
          ∧ subscribers_closed w1 = S (subscribers_closed w).
Proof.
  intros fuel msg w Hnone.
  assert (Hct : ∀ w', gcp_self w' = gcp_self w →
            GCPPubSub_check_topic (S fuel) w'
            = (Raise (Fault AttributeError),
               log_add (LogRaised ERROR (Fault AttributeError))
                 (log_add (Log DEBUG ("checking  .. topic="
                                      +:+ show (g_topic_path (gcp_self w')))) w'))).
  { intros w' Hself. apply connexion_unclassified; [|compute_done..].
    rewrite check_topic_body_run. unfold get_topic, publisher_request. run.
    simpl. by rewrite Hself, Hnone. }
  split_and!.
  - apply connexion_unclassified; [|compute_done..].
    unfold GCPPubSub_publish_body. run. by rewrite Hnone.
  - by apply Hct.
  - intros callback subscription deadLetter project Henv.
    set (wl := log_add (Log DEBUG "consuming ..") w).
    assert (Hcs : ∀ spath,
              GCPPubSub_check_subscription (S fuel) spath wl
              = (Raise (Fault AttributeError),
                 log_add (LogRaised ERROR (Fault AttributeError))
                   (log_add (LogRaised ERROR (Fault AttributeError))
                      (log_add (Log DEBUG ("checking  .. topic="
                                           +:+ show (g_topic_path (gcp_self wl))))
                         wl)))).
    { intros spath. apply connexion_unclassified; [|compute_done..].
      unfold GCPPubSub_check_subscription_body. run.
      by rewrite Hct. }
    eexists. split.
    + apply connexion_unclassified; [|compute_done..].
      unfold GCPPubSub_consume_body, with_subscriber. run. cbv beta iota.
      fold wl. change (os_environ wl) with (os_environ w).
      rewrite Henv, Hcs. reflexivity.
    + done.
Qed.

Lemma gcp_unopened_client_raises_witness :
  GCPPubSub_publish 1 (PText hello) world0
  = (Raise (Fault AttributeError),
     log_add (LogRaised ERROR (Fault AttributeError)) world0)
  ∧ GCPPubSub_check_topic 1 world0
    = (Raise (Fault AttributeError),
       log_add (LogRaised ERROR (Fault AttributeError))
         (log_add (Log DEBUG ("checking  .. topic="
                              +:+ show (g_topic_path (gcp_self world0))))
            world0))
  ∧ ∃ w1,
      GCPPubSub_consume 1 accepting None None world0
      = (Raise (Fault AttributeError), w1)
      ∧ env w1 = env world0 ∧ sessions w1 = sessions world0
      ∧ topics w1 = topics world0 ∧ subscriptions w1 = subscriptions world0
      ∧ subscribers_closed w1 = S (subscribers_closed world0).
Proof.
  destruct (gcp_unopened_client_raises 0 (PText hello) world0 eq_refl)
    as (Hp & Hc & Hconsume).
  split_and!; [exact Hp|exact Hc|].
  apply (Hconsume accepting None None "demo"). reflexivity.
Defined.

(** A text with a lone surrogate has no UTF-8 encoding. *)
Lemma encode_utf8_surrogate s c :
  c ∈ s → is_surrogate c = true → encode_utf8 s = None.
Proof.
  intros Hin Hsur. induction Hin as [c s|c c' s Hin IH]; simpl.
  - assert (encode_cp c = None) as Hc; [|by rewrite Hc].
    unfold encode_cp. rewrite Hsur. unfold is_surrogate in Hsur.
    apply andb_prop in Hsur as [H1%N.leb_le H2%N.ltb_lt].
    rewrite (proj2 (N.ltb_ge c 128)) by lia.
    rewrite (proj2 (N.ltb_ge c 2048)) by lia.
    rewrite (proj2 (N.ltb_lt c 65536)) by lia. reflexivity.
  - rewrite IH by done. by destruct (encode_cp c').
Qed.

(** X11. [publish] of a text that holds a lone surrogate: [msg.encode()]
    raises [UnicodeEncodeError], which the decorator of [publish] neither
    expects nor silences; the fault reaches the caller after one ERROR
    line and nothing is sent. *)
Theorem gcp_publish_unencodable_text_raises :
  ∀ (fuel : nat) (s : list N) (c : N) (u : unit) (w : World),
    g_publisher_client (gcp_self w) = Some u →
    c ∈ s → is_surrogate c = true →
    GCPPubSub_publish (S fuel) (PText s) w
    = (Raise (Fault UnicodeEncodeError),
       log_add (LogRaised ERROR (Fault UnicodeEncodeError)) w).
Proof.
  intros fuel s c u w Hp Hin Hsur.
  apply connexion_unclassified; [|compute_done..].
  unfold GCPPubSub_publish_body, str_encode. run. rewrite Hp. cbv beta iota.
  by rewrite (encode_utf8_surrogate s c Hin Hsur).
Qed.

Lemma gcp_publish_unencodable_text_raises_witness :
  GCPPubSub_publish 1 (PText [104; 55357]%N) world_open
  = (Raise (Fault UnicodeEncodeError),
     log_add (LogRaised ERROR (Fault UnicodeEncodeError)) world_open).
Proof.
  apply (gcp_publish_unencodable_text_raises 0 [104; 55357]%N 55357%N tt
           world_open).
  - reflexivity.
  - compute_done.
  - reflexivity.
Defined.

(** X12. [consume] reads [os.environ['GOOGLE_PROJECT']] itself (the
    constructor took the project from [GCPEnv]): without that variable
    [consume] raises [KeyError] before any request, whatever the state of
    the client; the subscriber is closed and the decorator logs the fault
    once. *)
Theorem gcp_consume_without_project_raises_key_error :
  ∀ (fuel : nat) (callback : Callback) (subscription deadLetter : option string)
    (w : World),
    os_environ w !! "GOOGLE_PROJECT" = None →
    GCPPubSub_consume (S fuel) callback subscription deadLetter w
    = (Raise (Fault KeyError),
       log_add (LogRaised ERROR (Fault KeyError))
         (set_subscribers_closed (S (subscribers_closed w))
            (log_add (Log DEBUG "consuming ..") w))).
Proof.
  intros fuel callback subscription deadLetter w Henv.
  apply connexion_unclassified; [|compute_done..].
  unfold GCPPubSub_consume_body, with_subscriber. run. cbv beta iota.
  change (os_environ (log_add (Log DEBUG "consuming ..") w)) with (os_environ w).
  by rewrite Henv.
Qed.

Lemma gcp_consume_without_project_raises_key_error_witness :
  let w := mkWorld ∅ [] 0 [] [] [] [] (redis_self world_open) []
             (gcp_self world_open) (topics world_open) ∅ [] [] [] 0 0 in
  GCPPubSub_consume 1 accepting None None w
  = (Raise (Fault KeyError),
     log_add (LogRaised ERROR (Fault KeyError))
       (set_subscribers_closed (S (subscribers_closed w))
          (log_add (Log DEBUG "consuming ..") w))).
Proof.
  intros w.
  apply (gcp_consume_without_project_raises_key_error 0 accepting None None w).
  reflexivity.
Defined.

(** ** Provisioning, further *)

(** X13. [check_topic] creates the topic only on [NotFound]. Any other
    fault of the lookup that the decorator does not name (not
    [ServiceUnavailable], not [AlreadyExists]) leaves through the bare
    [except: raise]: one request was made, no topic was created, the
    decorator logs the fault once and the caller gets it. *)
Theorem check_topic_propagates_other_faults :
  ∀ (fuel : nat) (path : string) (f : fault) (s : list env_step) (w : World),
    opened path w →
    env w = Inject (Fault f) :: s →
    f ∉ [NotFound; ServiceUnavailable; AlreadyExists] →
    GCPPubSub_check_topic (S fuel) w
    = (Raise (Fault f),
       log_add (LogRaised ERROR (Fault f))
         (set_env s
            (log_add (Log DEBUG ("checking  .. topic=" +:+ path)) w))).
Proof.
  intros fuel path f s w [Hp Ht] Henv Hf.
  rewrite !not_elem_of_cons in Hf. destruct Hf as (Hnf & Hsu & Hae & _).
  apply connexion_unclassified;
    [|by intros ?%list_elem_of_singleton..].
  rewrite check_topic_body_run. rewrite Ht.
  assert (get_topic (log_add (Log DEBUG ("checking  .. topic=" +:+ show (Some path))) w)
          = (Raise (Fault f),
             set_env s (log_add (Log DEBUG ("checking  .. topic=" +:+ path)) w)))
    as ->.
  { unfold get_topic, publisher_request. run. simpl. rewrite Hp. simpl.
    rewrite Ht. unfold request. simpl. by rewrite Henv. }
  by destruct f.
Qed.

Lemma check_topic_propagates_other_faults_witness :
  let w := set_env [Inject (Fault (UserError "PermissionDenied")); Quiet]
             world_open in
  GCPPubSub_check_topic 1 w
  = (Raise (Fault (UserError "PermissionDenied")),
     log_add (LogRaised ERROR (Fault (UserError "PermissionDenied")))
       (set_env [Quiet]
          (log_add (Log DEBUG ("checking  .. topic=" +:+ "projects/demo/topics/t"))
             w))).
Proof.
  intros w.
  apply (check_topic_propagates_other_faults 0 "projects/demo/topics/t"
           (UserError "PermissionDenied") [Quiet] w).
  - split; reflexivity.
  - reflexivity.
  - compute_done.
Defined.

(** X14. [check_subscription] on an open client, with nothing else going
    on: it returns; a subscription that did not exist is created on the
    topic of the client; one that existed keeps the topic it was bound
    to, whichever that is (the lookup result is only logged); no other
    subscription changes. *)
Theorem check_subscription_binds_to_client_topic :
  ∀ (fuel : nat) (path subscription : string) (w : World),
    opened path w → env w = [] →
    ∃ w1,
      GCPPubSub_check_subscription (S fuel) subscription w
      = (Return (Some tt), w1)
      ∧ subscriptions w1 !! subscription
        = Some (default path (subscriptions w !! subscription))
      ∧ ∀ other, other ≠ subscription →
          subscriptions w1 !! other = subscriptions w !! other.
Proof.
  intros fuel path subscription w Ho He.
  destruct (check_subscription_quiet fuel path subscription w Ho He)
    as (w1 & Hrun & _ & Hsubs).
  exists w1. split; [exact Hrun|]. rewrite Hsubs.
  destruct (subscriptions w !! subscription) as [t|] eqn:E; simpl.
  - by rewrite E.
  - split; [by rewrite lookup_insert_eq|].
    intros other Hne. by rewrite lookup_insert_ne.
Qed.

Lemma check_subscription_binds_to_client_topic_witness :
  let path := "projects/demo/topics/t" in
  let subscription := "projects/demo/subscriptions/tesselite" in
  ∃ w1,
    GCPPubSub_check_subscription 1 subscription world_open
    = (Return (Some tt), w1)
    ∧ subscriptions w1 !! subscription
      = Some (default path (subscriptions world_open !! subscription))
    ∧ ∀ other, other ≠ subscription →
        subscriptions w1 !! other = subscriptions world_open !! other.
Proof.
  intros path subscription.
  apply (check_subscription_binds_to_client_topic 0 path subscription world_open).
  - split; reflexivity.
  - reflexivity.
Defined.

(** [check_topic] on a topic that exists, with a quiet next step. *)
Lemma check_topic_present fuel path s w :
  opened path w → env w = Quiet :: s → path ∈ topics w →
  GCPPubSub_check_topic (S fuel) w
  = (Return (Some tt),
     set_env s (log_add (Log DEBUG ("checking  .. topic=" +:+ path)) w)).
Proof.
  intros [Hp Ht] Henv Hin. apply connexion_return.
  rewrite check_topic_body_run, Ht.
  assert (get_topic (log_add (Log DEBUG ("checking  .. topic=" +:+ show (Some path))) w)
          = (Return tt,
             set_env s (log_add (Log DEBUG ("checking  .. topic=" +:+ path)) w)))
    as ->; [|done].
  unfold get_topic, publisher_request. run. simpl. rewrite Hp. simpl.
  rewrite Ht. unfold request. simpl. rewrite Henv. simpl.
  by rewrite decide_True.
Qed.

(** X15. The lookup of the subscription fails with the fault [f], the
    topic check before it having gone through. On [NotFound] or
    [InvalidArgument] the subscription is registered on the topic of the
    client and the call returns. A fault that is neither of the two, nor
    named by the decorator, is logged by the handler, logged again by the
    decorator, and raised to the caller; nothing is registered. *)
Theorem check_subscription_lookup_faults :
  ∀ (fuel : nat) (path subscription : string) (f : fault) (w : World),
    opened path w → path ∈ topics w →
    env w = [Quiet; Inject (Fault f)] →
    let checked :=
      [Log DEBUG ("checking  .. topic=" +:+ path);
       Log DEBUG ("checking subscription .. " +:+ subscription)] in
    (f ∈ [NotFound; InvalidArgument] →
     subscriptions w !! subscription = None →
     ∃ w1,
       GCPPubSub_check_subscription (S fuel) subscription w
       = (Return (Some tt), w1)
       ∧ subscriptions w1 = <[subscription := path]> (subscriptions w)
       ∧ logs w1
         = logs w ++ checked
           ++ [Log INFO ("registering new subscription .. " +:+ subscription)])
    ∧ (f ∉ [NotFound; InvalidArgument; ServiceUnavailable; AlreadyExists] →
       ∃ w1,
         GCPPubSub_check_subscription (S fuel) subscription w
         = (Raise (Fault f), w1)
         ∧ subscriptions w1 = subscriptions w
         ∧ logs w1
           = logs w ++ checked
             ++ [LogRaised ERROR (Fault f); LogRaised ERROR (Fault f)]).
Proof.
  intros fuel path subscription f w Ho Hin Henv checked.
  pose proof (check_topic_present fuel path [Inject (Fault f)] w Ho Henv Hin)
    as Hct.
  destruct Ho as [Hp Ht].
  split.
  - intros Hf Hnone.
    apply elem_of_cons in Hf as [-> | Hf];
      [|apply list_elem_of_singleton in Hf as ->].
    all: eexists; split_and!;
      [ apply connexion_return;
        unfold GCPPubSub_check_subscription_body, get_subscription,
          create_subscription, request; run; rewrite Hct; simpl;
        rewrite Hnone, Ht; simpl; rewrite decide_True by done; reflexivity
      | done
      | simpl; by rewrite <- !app_assoc ].
  - intros Hf. rewrite !not_elem_of_cons in Hf.
    destruct Hf as (Hnf & Hia & Hsu & Hae & _).
    eexists. split_and!.
    + apply connexion_unclassified;
        [|by intros ?%list_elem_of_singleton..].
      unfold GCPPubSub_check_subscription_body, get_subscription, request. run.
      rewrite Hct. simpl. by destruct f.
    + done.
    + simpl. by rewrite <- !app_assoc.
Qed.

Lemma check_subscription_lookup_faults_witness :
  let path := "projects/demo/topics/t" in
  let subscription := "projects/demo/subscriptions/s" in
  let checked :=
    [Log DEBUG ("checking  .. topic=" +:+ path);
     Log DEBUG ("checking subscription .. " +:+ subscription)] in
  let w := set_env [Quiet; Inject (Fault InvalidArgument)] world_open in
  let w' := set_env [Quiet; Inject (Fault (UserError "PermissionDenied"))]
              world_open in
  (∃ w1,
     GCPPubSub_check_subscription 1 subscription w = (Return (Some tt), w1)
     ∧ subscriptions w1 = <[subscription := path]> (subscriptions w)
     ∧ logs w1
       = logs w ++ checked
         ++ [Log INFO ("registering new subscription .. " +:+ subscription)])
  ∧ (∃ w1,
       GCPPubSub_check_subscription 1 subscription w'
       = (Raise (Fault (UserError "PermissionDenied")), w1)
       ∧ subscriptions w1 = subscriptions w'
       ∧ logs w1
         = logs w' ++ checked
           ++ [LogRaised ERROR (Fault (UserError "PermissionDenied"));
               LogRaised ERROR (Fault (UserError "PermissionDenied"))]).
Proof.
  intros path subscription checked w w'. split.
  - apply (proj1 (check_subscription_lookup_faults 0 path subscription
                    InvalidArgument w (conj eq_refl eq_refl)
                    ltac:(compute_done) eq_refl)).
    + compute_done.
    + reflexivity.
  - apply (proj2 (check_subscription_lookup_faults 0 path subscription
                    (UserError "PermissionDenied") w' (conj eq_refl eq_refl)
                    ltac:(compute_done) eq_refl)).
    compute_done.
Defined.

(** ** A streaming session of [GCPPubSub.consume] *)

(** [consume], once provisioning is through, is the session it opens:
    the deliveries, then the end of [future.result()]. *)
Lemma consume_body_session fuel callback subscription deadLetter path project
    s ss w :
  opened path w → calm w →
  os_environ w !! "GOOGLE_PROJECT" = Some project →
  sessions w = s :: ss →
  ∃ wa wb,
    (acked wa = acked w ∧ cb_calls wa = cb_calls w
     ∧ worker_raised wa = worker_raised w
     ∧ futures_cancelled wb = futures_cancelled w
     ∧ subscribers_closed wb = subscribers_closed w)
    ∧ deliveries (S fuel) callback (delivered s) (set_sessions ss wa)
      = (Return tt, wb)
    ∧ GCPPubSub_consume_body (S fuel) callback subscription deadLetter w
      = match ending s with
        | None =>
            (Return tt, set_subscribers_closed (S (subscribers_closed wb)) wb)
        | Some KeyboardInterrupt =>
            (Return tt,
             set_subscribers_closed (S (subscribers_closed wb))
               (set_futures_cancelled (S (futures_cancelled wb)) wb))
        | Some e =>
            (Raise e, set_subscribers_closed (S (subscribers_closed wb)) wb)
        end.
Proof.
  intros Ho Hc Henv Hss.
  set (wl := log_add (Log DEBUG "consuming ..") w).
  set (name := match truthy subscription with
               | Some x => x
               | None => SUBSCRIPTION_NAME (g_env (gcp_self w))
               end).
  set (spath := "projects/" +:+ project +:+ "/subscriptions/" +:+ name).
  destruct (check_subscription_calm fuel path spath wl Ho Hc)
    as (r & wa & Hcs & _ & _).
  destruct (deliveries_returns (S fuel) callback (delivered s) (set_sessions ss wa))
    as [wb Hd].
  exists wa, wb.
  assert (sessions wa = sessions w) as Hsa.
  { change (sessions wa = sessions wl).
    eapply (frame_check_subscription (keeps sessions)); last exact Hcs; keeps_side. }
  split_and!.
  - change (acked wa = acked wl).
    eapply (frame_check_subscription (keeps acked)); last exact Hcs; keeps_side.
  - change (cb_calls wa = cb_calls wl).
    eapply (frame_check_subscription (keeps cb_calls)); last exact Hcs; keeps_side.
  - change (worker_raised wa = worker_raised wl).
    eapply (frame_check_subscription (keeps worker_raised)); last exact Hcs;
      keeps_side.
  - transitivity (futures_cancelled wa).
    + eapply (frame_deliveries (keeps futures_cancelled)) in Hd; [|keeps_side..].
      exact Hd.
    + change (futures_cancelled wa = futures_cancelled wl).
      eapply (frame_check_subscription (keeps futures_cancelled));
        last exact Hcs; keeps_side.
  - transitivity (subscribers_closed wa).
    + eapply (frame_deliveries (keeps subscribers_closed)) in Hd;
        [|keeps_side..].
      exact Hd.
    + change (subscribers_closed wa = subscribers_closed wl).
      eapply (frame_check_subscription (keeps subscribers_closed));
        last exact Hcs; keeps_side.
  - exact Hd.
  - unfold GCPPubSub_consume_body, with_subscriber, subscribe, future_result,
      future_cancel. run. cbv beta iota.
    fold wl. change (os_environ wl) with (os_environ w). rewrite Henv.
    change (gcp_self wl) with (gcp_self w). fold name. fold spath.
    rewrite Hcs. cbv beta iota. rewrite Hsa, Hss. cbv beta iota.
    rewrite Hd. cbv beta iota.
    by destruct (ending s) as [[f| |c]|].
Qed.

(** One message under a callback that always returns: a payload that
    decodes is handed over and acknowledged at the first attempt; one that
    does not decode is retried and never gets there. *)
Lemma exec_callback_returning fuel callback m w :
  (∀ history arg, callback history arg = None) →
  ∃ r w1,
    GCPPubSub_exec_callback (S fuel) callback m w = (r, w1)
    ∧ cb_calls w1 = cb_calls w ++ option_list (decode_utf8 (data m))
    ∧ acked w1
      = acked w ++ (if decide (is_Some (decode_utf8 (data m))) then [m] else []).
Proof.
  intros Hcb. unfold GCPPubSub_exec_callback.
  pose proof (exec_callback_body_cases callback m) as H.
  destruct (decode_utf8 (data m)) as [arg|] eqn:Hdec.
  - specialize (H w). simpl in H. rewrite Hcb in H.
    rewrite connexion_unfold, H. eexists _, _. split; [done|].
    rewrite decide_True by done. done.
  - rewrite (decide_False (P := is_Some None)) by (by intros [? ?]).
    simpl option_list. rewrite !app_nil_r.
    generalize (S fuel). intros n. revert w.
    induction n as [|n IH]; intros w.
    + by eexists _, _.
    + rewrite (connexion_expected _ _ _ _ _ _ _ (H w));
        [|apply not_elem_of_nil|compute_done].
      destruct (IH (backoff (log_add (LogRaised WARNING
                  (Fault MessageProcessingException))
                  (log_add (LogRaised ERROR (Fault UnicodeDecodeError)) w))))
        as (r & w1 & -> & Hc & Ha).
      by eexists _, _.
Qed.

Lemma deliveries_returning fuel callback ms w :
  (∀ history arg, callback history arg = None) →
  ∃ w1,
    deliveries (S fuel) callback ms w = (Return tt, w1)
    ∧ cb_calls w1 = cb_calls w ++ omap (λ m, decode_utf8 (data m)) ms
    ∧ acked w1
      = acked w ++ filter (λ m, is_Some (decode_utf8 (data m))) ms.
Proof.
  intros Hcb. revert w. induction ms as [|m ms IH]; intros w.
  - exists w. by rewrite !app_nil_r.
  - cbn [deliveries]. run. unfold deliver.
    destruct (exec_callback_returning fuel callback m w Hcb)
      as (r & w1 & -> & Hc & Ha).
    assert (∃ w2, match r with
                  | Raise e =>
                      (Return tt,
                       set_worker_raised (worker_raised w1 ++ [(m, e)]) w1)
                  | _ => (Return tt, w1)
                  end = (Return tt, w2)
                  ∧ cb_calls w2 = cb_calls w1 ∧ acked w2 = acked w1)
      as (w2 & -> & Hc2 & Ha2).
    { destruct r as [a|e|]; by eexists. }
    destruct (IH w2) as (w3 & -> & Hc3 & Ha3).
    exists w3. split; [done|].
    rewrite Hc3, Ha3, Hc2, Ha2, Hc, Ha, filter_cons. cbn [omap].
    destruct (decode_utf8 (data m)) as [arg|] eqn:Hdec; simpl.
    + rewrite ?Hdec, ?decide_True by done. by rewrite <- ?app_assoc.
    + rewrite ?Hdec, ?(decide_False (P := is_Some None)) by (by intros [? ?]).
      by rewrite ?app_nil_r.
Qed.

(** X16. One streaming session of [consume] under a callback that always
    returns, ended by the stream or by the operator. Counted with
    multiplicity and in no particular order (the workers run
    concurrently): the callback received the payloads that decode as
    UTF-8, and exactly the messages that carried them were acknowledged. A
    message whose bytes do not decode never reaches the callback and is
    never acknowledged. *)
Theorem gcp_consume_acks_decodable :
  ∀ (fuel : nat) (callback : Callback) (subscription deadLetter : option string)
    (path project : string) (s : session) (ss : list session) (w : World),
    opened path w → calm w →
    os_environ w !! "GOOGLE_PROJECT" = Some project →
    sessions w = s :: ss →
    (∀ history arg, callback history arg = None) →
    ending s = None ∨ ending s = Some KeyboardInterrupt →
    ∃ w1,
      GCPPubSub_consume (S fuel) callback subscription deadLetter w
      = (Return (Some tt), w1)
      ∧ cb_calls w1
        ≡ₚ cb_calls w ++ omap (λ m, decode_utf8 (data m)) (delivered s)
      ∧ acked w1
        ≡ₚ acked w ++ filter (λ m, is_Some (decode_utf8 (data m))) (delivered s).
Proof.
  intros fuel callback subscription deadLetter path project s ss w
    Ho Hc Henv Hss Hcb Hend.
  destruct (consume_body_session fuel callback subscription deadLetter path
              project s ss w Ho Hc Henv Hss)
    as (wa & wb & (Ha & Hca & _) & Hd & Hbody).
  destruct (deliveries_returning fuel callback (delivered s)
              (set_sessions ss wa) Hcb) as (wb' & Hd' & Hcalls & Hacked).
  rewrite Hd in Hd'. simplify_eq. simpl in Hcalls, Hacked.
  rewrite Hca in Hcalls. rewrite Ha in Hacked.
  unfold GCPPubSub_consume. rewrite connexion_unfold, Hbody.
  destruct Hend as [-> | ->]; eexists; (split; [reflexivity|]); simpl;
    by rewrite Hcalls, Hacked.
Qed.

Lemma gcp_consume_acks_decodable_witness :
  let m1 := {| data := hello; ack_id := 0 |} in
  let m2 := {| data := [255%N]; ack_id := 1 |} in
  let m3 := {| data := [104; 105]%N; ack_id := 2 |} in
  let g := set_sessions [{| delivered := [m1; m2; m3]; ending := None |}]
             world_open in
  ∃ w1,
    GCPPubSub_consume 3 accepting None None g = (Return (Some tt), w1)
    ∧ cb_calls w1 ≡ₚ [hello; [104; 105]%N]
    ∧ acked w1 ≡ₚ [m1; m3].
Proof.
  intros m1 m2 m3 g.
  apply (gcp_consume_acks_decodable 2 accepting None None
           "projects/demo/topics/t" "demo"
           {| delivered := [m1; m2; m3]; ending := None |} [] g).
  - split; reflexivity.
  - unfold calm. vm_compute. constructor.
  - reflexivity.
  - reflexivity.
  - reflexivity.
  - by left.
Defined.

(** X17. [future.result()] raises a fault [f] that the decorator of
    [consume] does not retry. The handler [except Exception: raise] lets
    it through: the future is not cancelled, the subscriber is closed, no
    further session is opened. [AlreadyExists], [NotFound] and
    [TimeoutError] are silenced by the decorator and [consume] returns
    [None]; any other such fault reaches the caller. *)
Theorem gcp_consume_stream_fault :
  ∀ (fuel : nat) (callback : Callback) (subscription deadLetter : option string)
    (path project : string) (s : session) (ss : list session) (f : fault)
    (w : World),
    opened path w → calm w →
    os_environ w !! "GOOGLE_PROJECT" = Some project →
    sessions w = s :: ss →
    ending s = Some (Fault f) →
    f ∉ [ServiceUnavailable; RetryError] →
    ∃ w1,
      GCPPubSub_consume (S fuel) callback subscription deadLetter w
      = (if decide (f ∈ [AlreadyExists; NotFound; TimeoutError])
         then Return None else Raise (Fault f), w1)
      ∧ futures_cancelled w1 = futures_cancelled w
      ∧ subscribers_closed w1 = S (subscribers_closed w)
      ∧ sessions w1 = ss.
Proof.
  intros fuel callback subscription deadLetter path project s ss f w
    Ho Hc Henv Hss Hend Hf.
  destruct (consume_body_session fuel callback subscription deadLetter path
              project s ss w Ho Hc Henv Hss)
    as (wa & wb & (_ & _ & _ & Hfc & Hsc) & Hd & Hbody).
  rewrite Hend in Hbody.
  assert (sessions wb = ss) as Hb.
  { eapply (frame_deliveries (keeps sessions)) in Hd; [exact Hd|keeps_side..]. }
  unfold GCPPubSub_consume.
  destruct (decide (f ∈ [AlreadyExists; NotFound; TimeoutError])) as [Hn|Hn].
  - rewrite (connexion_noisy _ _ _ _ _ _ _ Hbody Hn).
    eexists. split; [reflexivity|]. simpl. by rewrite Hfc, Hsc, Hb.
  - rewrite (connexion_unclassified _ _ _ _ _ _ _ Hbody Hn Hf).
    eexists. split; [reflexivity|]. simpl. by rewrite Hfc, Hsc, Hb.
Qed.

Lemma gcp_consume_stream_fault_witness :
  let m := {| data := hello; ack_id := 0 |} in
  let later := {| delivered := [m]; ending := None |} in
  let g f := set_sessions [{| delivered := [m]; ending := Some (Fault f) |};
                           later] world_open in
  (∃ w1,
     GCPPubSub_consume 1 accepting None None (g TimeoutError)
     = (Return None, w1)
     ∧ futures_cancelled w1 = 0 ∧ subscribers_closed w1 = 1
     ∧ sessions w1 = [later])
  ∧ (∃ w1,
       GCPPubSub_consume 1 accepting None None (g InvalidArgument)
       = (Raise (Fault InvalidArgument), w1)
       ∧ futures_cancelled w1 = 0 ∧ subscribers_closed w1 = 1
       ∧ sessions w1 = [later]).
Proof.
  intros m later g. split.
  - apply (gcp_consume_stream_fault 0 accepting None None
             "projects/demo/topics/t" "demo"
             {| delivered := [m]; ending := Some (Fault TimeoutError) |}
             [later] TimeoutError (g TimeoutError)).
    + split; reflexivity.
    + unfold calm. vm_compute. constructor.
    + reflexivity.
    + reflexivity.
    + reflexivity.
    + compute_done.
  - apply (gcp_consume_stream_fault 0 accepting None None
             "projects/demo/topics/t" "demo"
             {| delivered := [m]; ending := Some (Fault InvalidArgument) |}
             [later] InvalidArgument (g InvalidArgument)).
    + split; reflexivity.
    + unfold calm. vm_compute. constructor.
    + reflexivity.
    + reflexivity.
    + reflexivity.
    + compute_done.
Defined.

(** ** The default broker *)

(** X18. [pubsubFactory()] with its default argument, the module-level
    [BROKER]; [upper] stands for [str.upper()], of which only its action
    on ASCII strings is assumed. When the environment has no [BROKER],
    the default ["GCP_PUBSUB"] (with an underscore) is none of the
    identifiers the factory knows (["GCP-PUBSUB"], with a hyphen): the
    call logs the fatal line and exits with status 1. So the call returns
    a class only when [BROKER] is set, to a string whose uppercase is the
    identifier of that class. *)
Theorem factory_default_needs_broker_variable :
  ∀ (upper : string → string) (w : World),
    upper_on_ascii upper →
    (os_environ w !! "BROKER" = None →
     pubsubFactory_default upper w
     = (Raise (SystemExit 1),
        log_add (Log FATAL "Broker type <GCP_PUBSUB> not available yet.") w))
    ∧ (∀ c w1,
         pubsubFactory_default upper w = (Return c, w1) →
         ∃ b, os_environ w !! "BROKER" = Some b ∧ upper b = broker_name c).
Proof.
  intros upper w Hup.
  assert (os_environ w !! "BROKER" = None →
          pubsubFactory_default upper w
          = (Raise (SystemExit 1),
             log_add (Log FATAL "Broker type <GCP_PUBSUB> not available yet.") w))
    as Hunset.
  { intros H. unfold pubsubFactory_default. run. cbv beta iota.
    unfold BROKER at 1. rewrite H. cbn [default]. unfold id.
    rewrite (proj2 (factory_by_upper upper "GCP_PUBSUB" w)).
    - unfold BROKER. by rewrite H.
    - intros c. rewrite (Hup "GCP_PUBSUB") by compute_done.
      destruct c; discriminate. }
  split; [exact Hunset|].
  intros c w1 Hrun.
  destruct (os_environ w !! "BROKER") as [b|] eqn:Hb;
    [|rewrite Hunset in Hrun; by simplify_eq].
  exists b. split; [done|].
  unfold pubsubFactory_default in Hrun. run. cbv beta iota in Hrun.
  unfold BROKER in Hrun at 1. rewrite Hb in Hrun. cbn [default] in Hrun.
  unfold id in Hrun. unfold pubsubFactory in Hrun.
  destruct (decide (upper b = "REDIS")) as [H1|H1].
  { run. by simplify_eq. }
  destruct (decide (upper b = "GCP-PUBSUB")) as [H2|H2].
  { run. by simplify_eq. }
  run. cbv beta iota in Hrun. simplify_eq.
Qed.

Lemma factory_default_needs_broker_variable_witness :
  let w := mkWorld {["BROKER" := "Redis"]} [] 0 [] [] [] []
             (redis_self world0) [] (gcp_self world0) ∅ ∅ [] [] [] 0 0 in
  pubsubFactory_default upper_excerpt world0
  = (Raise (SystemExit 1),
     log_add (Log FATAL "Broker type <GCP_PUBSUB> not available yet.") world0)
  ∧ ∃ b, os_environ w !! "BROKER" = Some b
         ∧ upper_excerpt b = broker_name class_RedisPubsub.
Proof.
  intros w. split.
  - apply (proj1 (factory_default_needs_broker_variable upper_excerpt world0
                    upper_excerpt_on_ascii)).
    reflexivity.
  - apply (proj2 (factory_default_needs_broker_variable upper_excerpt w
                    upper_excerpt_on_ascii)
             class_RedisPubsub w).
    reflexivity.
Defined.

(** ** What the key-value-store client sends *)

Lemma frame_on_event_sent fuel callback deadLetter ev :
  frame (keeps redis_sent) (RedisPubsub_on_event fuel callback deadLetter ev).
Proof.
  unfold RedisPubsub_on_event.
  apply frame_try_except; try apply _.
  - apply frame_bind; try apply _; [|intros; apply frame_ret; apply _].
    apply frame_connexion; try apply _; [by intros..|].
    apply frame_exec_callback_body_sent.
  - intros e k Hk. destruct e as [f| |c]; [|done..]. injection Hk as <-.
    apply frame_bind; try apply _; [by intros w r w1 [= <- <-]|].
    intros _. apply frame_bind; try apply _; [|intros; apply frame_raise; apply _].
    destruct (truthy deadLetter) as [topic|]; [|apply frame_ret; apply _].
    intros w r w1. unfold redis_client_publish, redis_encode. run.
    destruct (r_client (redis_self w)); [|by intros [= <- <-]].
    destruct (request w) as [[[]|e|] w2] eqn:Hr;
      pose proof (frame_request_redis_sent _ _ _ Hr) as Hs; unfold keeps in Hs;
      cbv beta iota; by intros [= <- <-].
Qed.

(** X19. [RedisPubsub.consume] never publishes: whatever the stream, the
    callback, the dead-letter topic and the bound on attempts, no message
    was sent to the broker when the call ends. Its one publish, the dead
    letter of the handler, has the received event as its value, and is
    refused by the library every time. *)
Theorem redis_consume_publishes_nothing :
  ∀ (fuel : nat) (callback : Callback) (deadLetter : option string) (w : World),
    redis_sent (snd (RedisPubsub_consume fuel callback deadLetter w))
    = redis_sent w.
Proof.
  intros fuel callback deadLetter w.
  destruct (RedisPubsub_consume fuel callback deadLetter w) as [r w1] eqn:E.
  revert E. unfold RedisPubsub_consume.
  apply (frame_connexion (keeps redis_sent)); try apply _; [by intros..|].
  unfold RedisPubsub_consume_body.
  apply frame_bind; try apply _; [apply frame_subscribe_sent|].
  intros _. unfold RedisPubsub_event_loop.
  apply frame_try_except; try apply _.
  - apply frame_for_listen; try apply _; [by intros|].
    intros ev. apply frame_on_event_sent.
  - intros e k Hk. destruct e as [f| |c]; simplify_eq.
    + apply frame_raise; apply _.
    + by intros w3 r3 w4 [= <- <-].
Qed.

(** X20. [RedisPubsub.publish] of a text that holds a lone surrogate, on
    an open client with the broker in reach: the library cannot encode
    the text and raises [UnicodeEncodeError], which is no expected fault
    of [publish]; it reaches the caller after one ERROR line and nothing
    is sent. *)
Theorem redis_publish_unencodable_text_raises :
  ∀ (fuel : nat) (s : list N) (c : N) (h : redis_handle) (w : World),
    r_client (redis_self w) = Some h → request_accepted w →
    c ∈ s → is_surrogate c = true →
    ∃ w1,
      RedisPubsub_publish (S fuel) (PText s) w
      = (Raise (Fault UnicodeEncodeError), w1)
      ∧ redis_sent w1 = redis_sent w
      ∧ logs w1 = logs w ++ [LogRaised ERROR (Fault UnicodeEncodeError)].
Proof.
  intros fuel s c h w Hh Hreq Hin Hsur.
  destruct (request_accepted_returns w Hreq) as [w1 Hr].
  pose proof (frame_request_redis_sent _ _ _ Hr) as Hsent. unfold keeps in Hsent.
  assert (frame (keeps logs) request) as Hfl by frame_prim.
  pose proof (Hfl _ _ _ Hr) as Hlogs. unfold keeps in Hlogs.
  exists (log_add (LogRaised ERROR (Fault UnicodeEncodeError)) w1). split.
  - apply connexion_unclassified; [|apply not_elem_of_nil|compute_done].
    unfold RedisPubsub_publish_body, redis_client_publish, redis_encode,
      str_encode. run.
    rewrite Hh, Hr. cbv beta iota.
    by rewrite (encode_utf8_surrogate s c Hin Hsur).
  - simpl. by rewrite Hsent, Hlogs.
Qed.

Lemma redis_publish_unencodable_text_raises_witness :
  ∃ w1,
    RedisPubsub_publish 1 (PText [104; 55357]%N) world_open
    = (Raise (Fault UnicodeEncodeError), w1)
    ∧ redis_sent w1 = redis_sent world_open
    ∧ logs w1 = logs world_open ++ [LogRaised ERROR (Fault UnicodeEncodeError)].
Proof.
  apply (redis_publish_unencodable_text_raises 0 [104; 55357]%N 55357%N
           (redis_Redis redis_env0) world_open).
  - reflexivity.
  - vm_compute. exact I.
  - compute_done.
  - reflexivity.
Defined.
